(** * Voice interview coordinator and browser speech output

    A shallow embedding of
      - [src/utils/speechSynthesis.ts] (class [BrowserTTS]) and
      - the session handlers of [src/components/VoiceInterviewScreen.tsx]
        ([startVoiceInterview], [pauseInterview], [resumeInterview],
        [endInterview], [submitVoiceResponse], [toggleMicrophone]),
    followed by the properties of the specification that concern them. *)

From Stdlib Require Import List String Ascii Bool Arith ZArith QArith Lia.
From Stdlib Require Import DecimalString.
Import ListNotations.
Local Open Scope nat_scope.
Local Open Scope string_scope.

(** ** JavaScript string operations used by the sources

    A [string] holds a text as the bytes of its UTF-8 encoding.
    [startsWith], [includes] with an ASCII literal and [split] at the
    hyphen compare texts piece by piece; they give the same answer on the
    encoded text and are modelled on it.  [toLowerCase] and [trim] depend
    on the Unicode character database (the Kelvin sign U+212A maps to [k],
    the no-break space U+00A0 is white space) and are the platform's: the
    lower-cased name of a voice is part of the voice
    ([TTS.name_toLowerCase]) and [trim] is part of the environment of the
    handlers ([Coordinator.trim]), so that what is proved of the sources
    holds whatever these two make of a text. *)
Module JS.

(** [s.startsWith(p)] *)
Definition startsWith (s p : string) : bool := String.prefix p s.

(** [s.includes(t)] *)
Fixpoint includes (s t : string) : bool :=
  String.prefix t s ||
  match s with
  | EmptyString => false
  | String _ s' => includes s' t
  end.

(** [s.split('-')[0]]: the text before the first hyphen, the whole string
    when there is none. *)
Fixpoint split_hyphen_0 (s : string) : string :=
  match s with
  | EmptyString => EmptyString
  | String c s' => if Ascii.eqb c "-" then EmptyString
                   else String c (split_hyphen_0 s')
  end.

(** Truthiness of a string: only the empty string is falsy. *)
Definition truthy (s : string) : bool :=
  match s with EmptyString => false | _ => true end.

(** [n.toString()], also the interpolation [`${n}`], for an integer: its
    decimal digits, with a minus sign when negative (what JavaScript prints
    for integers below 10^21 in absolute value). *)
Definition number_toString (n : Z) : string :=
  NilZero.string_of_int (Z.to_int n).

(** [s.padStart(2, '0')] *)
Definition padStart2 (s : string) : string :=
  match String.length s with
  | 0 => "00"
  | 1 => "0" ++ s
  | _ => s
  end.

End JS.

(** ** [BrowserTTS]: voices and the preferred voice *)
Module TTS.

(** The two fields of [SpeechSynthesisVoice] the adapter reads, and the
    value of [voice.name.toLowerCase()], the platform's lower-casing of the
    name. *)
Record Voice := mkVoice {
  name : string;
  lang : string;
  name_toLowerCase : string
}.

(** The literals tested against the lower-cased voice name, in source order. *)
Definition female_tokens : list string :=
  ["female"; "woman"; "samantha"; "karen"; "zira"; "susan"; "allison"].

(** [voice.lang.startsWith(lang.split('-')[0])] *)
Definition lang_matches (lang0 : string) (v : Voice) : bool :=
  JS.startsWith (lang v) (JS.split_hyphen_0 lang0).

(** The disjunction of [voice.name.toLowerCase().includes(...)] tests. *)
Definition name_hints_female (v : Voice) : bool :=
  JS.includes (name_toLowerCase v) "female" ||
  JS.includes (name_toLowerCase v) "woman" ||
  JS.includes (name_toLowerCase v) "samantha" ||
  JS.includes (name_toLowerCase v) "karen" ||
  JS.includes (name_toLowerCase v) "zira" ||
  JS.includes (name_toLowerCase v) "susan" ||
  JS.includes (name_toLowerCase v) "allison".

(** [getPreferredVoice(lang)], over the catalog [this.voices]. *)
Definition getPreferredVoice (voices : list Voice) (lang0 : string)
  : option Voice :=
  let femaleVoices :=
    filter (fun voice => lang_matches lang0 voice && name_hints_female voice)
           voices in
  if (0 <? List.length femaleVoices)%nat then nth_error femaleVoices 0
  else
    let langVoices := filter (fun voice => lang_matches lang0 voice) voices in
    if (0 <? List.length langVoices)%nat then nth_error langVoices 0
    else if (0 <? List.length voices)%nat then nth_error voices 0 else None.

(** *** The selection rule in the words of the specification *)

(** "case-insensitive substring match against a fixed set of tokens": the
    name in lower case contains one of the tokens, which are in lower
    case. *)
Definition spec_name_matches (v : Voice) : bool :=
  existsb (fun tok => JS.includes (name_toLowerCase v) tok) female_tokens.

(** A language tag in lower case.  Language tags are made of ASCII letters,
    digits and hyphens (BCP 47), so ignoring their case is folding [A]-[Z]. *)
Definition lower_ascii (c : ascii) : ascii :=
  let n := nat_of_ascii c in
  if (65 <=? n)%nat && (n <=? 90)%nat then ascii_of_nat (n + 32) else c.

Fixpoint lower_tag (s : string) : string :=
  match s with
  | EmptyString => EmptyString
  | String c s' => String (lower_ascii c) (lower_tag s')
  end.

(** "the voice's language tag starts with the text before the first hyphen",
    compared without regard to case as the specification asks of all
    matching. *)
Definition spec_lang_matches_ci (lang0 : string) (v : Voice) : bool :=
  JS.startsWith (lower_tag (lang v)) (lower_tag (JS.split_hyphen_0 lang0)).

(** The three tiers, parameterised by the language test. *)
Definition three_tier (lang_ok : Voice -> bool) (voices : list Voice)
  : option Voice :=
  match find (fun v => lang_ok v && spec_name_matches v) voices with
  | Some v => Some v
  | None =>
      match find lang_ok voices with
      | Some v => Some v
      | None => hd_error voices
      end
  end.

(** The rule as the specification words it: every comparison ignores case. *)
Definition selectPreferredVoice_spec (voices : list Voice) (lang0 : string)
  : option Voice :=
  three_tier (spec_lang_matches_ci lang0) voices.

(** *** Utterances, callbacks and the platform engine *)

(** The optional fields of [SpeechOptions]. *)
Record SpeechOptions := mkOptions {
  opt_rate : option Q;
  opt_pitch : option Q;
  opt_volume : option Q;
  opt_voice : option Voice;
  opt_lang : option string
}.

Definition no_options : SpeechOptions := mkOptions None None None None None.

(** A [SpeechSynthesisUtterance]; [u_id] names the object (objects are
    numbered in the order [speak] is called). *)
Record Utterance := mkUtterance {
  u_id : nat;
  u_text : string;
  u_rate : Q;
  u_pitch : Q;
  u_volume : Q;
  u_lang : string;
  u_voice : option Voice
}.

(** Which of the optional callbacks [onStart], [onEnd], [onError] the caller
    passed to [speak]. *)
Record Callbacks := mkCallbacks {
  has_onStart : bool;
  has_onEnd : bool;
  has_onError : bool
}.

Definition all_callbacks : Callbacks := mkCallbacks true true true.

(** An invocation of a caller's callback. *)
Inductive Callback :=
| OnStart
| OnEnd
| OnError (message : string).

(** [SpeechResult] *)
Record SpeechResult := mkResult { success : bool; error : option string }.

(** Events the platform engine dispatches: on an utterance object, or
    [voiceschanged] on the engine itself. *)
Inductive Event :=
| EvStart (id : nat)
| EvEnd (id : nat)
| EvError (id : nat) (code : string)
| EvPause (id : nat)
| EvResume (id : nat)
| EvVoicesChanged (catalog : list Voice).

(** The adapter's fields, the platform engine it drives and what callers can
    observe.

    [queue] and [engine_paused] belong to [window.speechSynthesis], which is
    the browser's: [speak] appends an utterance to its queue, [cancel]
    empties the queue, and an utterance that ends or fails leaves it.
    [handlers] are the closures installed on every utterance object ever
    created (they stay installed, the source never removes them), [fired]
    the callback invocations per [speak] call, oldest first, and [settled]
    the values the returned promises were resolved with. *)
Record State := mkState {
  synthesis : bool;
  voices : list Voice;
  isSupported : bool;
  currentUtterance : option Utterance;
  queue : list nat;
  engine_paused : bool;
  handlers : list (nat * Callbacks);
  nextId : nat;
  fired : list (nat * Callback);
  settled : list (nat * SpeechResult)
}.

Definition set_current (c : option Utterance) (s : State) : State :=
  mkState (synthesis s) (voices s) (isSupported s) c (queue s)
          (engine_paused s) (handlers s) (nextId s) (fired s) (settled s).

Definition set_queue (q : list nat) (s : State) : State :=
  mkState (synthesis s) (voices s) (isSupported s) (currentUtterance s) q
          (engine_paused s) (handlers s) (nextId s) (fired s) (settled s).

Definition set_engine_paused (b : bool) (s : State) : State :=
  mkState (synthesis s) (voices s) (isSupported s) (currentUtterance s)
          (queue s) b (handlers s) (nextId s) (fired s) (settled s).

Definition set_voices (vs : list Voice) (s : State) : State :=
  mkState (synthesis s) vs (isSupported s) (currentUtterance s) (queue s)
          (engine_paused s) (handlers s) (nextId s) (fired s) (settled s).

(** Invokes an optional callback: [cb?.(...)]. *)
Definition fire (present : bool) (id : nat) (c : Callback) (s : State) : State :=
  if present then
    mkState (synthesis s) (voices s) (isSupported s) (currentUtterance s)
            (queue s) (engine_paused s) (handlers s) (nextId s)
            (fired s ++ [(id, c)]) (settled s)
  else s.

Definition is_settled (id : nat) (s : State) : bool :=
  existsb (fun p => Nat.eqb (fst p) id) (settled s).

(** [resolve(r)] (or the [return] of the async function): a promise settles
    once, later calls change nothing. *)
Definition resolve (id : nat) (r : SpeechResult) (s : State) : State :=
  if is_settled id s then s
  else mkState (synthesis s) (voices s) (isSupported s) (currentUtterance s)
               (queue s) (engine_paused s) (handlers s) (nextId s) (fired s)
               (settled s ++ [(id, r)]).

(** A new utterance object with the handlers [speak] installs on it. *)
Definition register (id : nat) (cbs : Callbacks) (s : State) : State :=
  mkState (synthesis s) (voices s) (isSupported s) (currentUtterance s)
          (queue s) (engine_paused s) (handlers s ++ [(id, cbs)]) (nextId s)
          (fired s) (settled s).

(** The next [speak] call gets the next number. *)
Definition bump (s : State) : State :=
  mkState (synthesis s) (voices s) (isSupported s) (currentUtterance s)
          (queue s) (engine_paused s) (handlers s) (S (nextId s)) (fired s)
          (settled s).

(** The constructor with [initialize()]: [platform] is the voice list of
    [window.speechSynthesis], [None] when the window has no such engine. *)
Definition initialize (platform : option (list Voice)) : State :=
  match platform with
  | Some vs => mkState true vs true None [] false [] 0 [] []
  | None => mkState false [] false None [] false [] 0 [] []
  end.

(** [loadVoices()] with the engine's current catalog. *)
Definition loadVoices (catalog : list Voice) (s : State) : State :=
  if synthesis s then set_voices catalog s else s.

(** [stop()] *)
Definition stop (s : State) : State :=
  match synthesis s, currentUtterance s with
  | true, Some _ => set_current None (set_queue [] s)
  | _, _ => s
  end.

(** [pause()] *)
Definition pause (s : State) : State :=
  match synthesis s, currentUtterance s with
  | true, Some _ => set_engine_paused true s
  | _, _ => s
  end.

(** [resume()] *)
Definition resume (s : State) : State :=
  match synthesis s, currentUtterance s with
  | true, Some _ => set_engine_paused false s
  | _, _ => s
  end.

Definition unsupported_message : string :=
  "Speech synthesis not supported in this browser".

Definition default_rate : Q := 9 # 10.
Definition default_pitch : Q := 1.
Definition default_volume : Q := 1.
Definition default_lang : string := "en-US".

(** The utterance [speak] builds from its text and options. *)
Definition make_utterance (id : nat) (text : string) (options : SpeechOptions)
           (s : State) : Utterance :=
  let l := match opt_lang options with Some l => l | None => default_lang end in
  mkUtterance id text
    (match opt_rate options with Some r => r | None => default_rate end)
    (match opt_pitch options with Some r => r | None => default_pitch end)
    (match opt_volume options with Some r => r | None => default_volume end)
    l
    (match opt_voice options with
     | Some v => Some v
     | None => getPreferredVoice (voices s) l
     end).

Arguments make_utterance : simpl never.

(** [speak(text, options, onStart, onEnd, onError)] up to the point where the
    promise is returned.  [engine_throws] is the exception, if any, that
    [this.synthesis.speak(utterance)] raises. *)
Definition speak (text : string) (options : SpeechOptions) (cbs : Callbacks)
           (engine_throws : option string) (s : State) : State :=
  let id := nextId s in
  let s := bump s in
  if negb (isSupported s) || negb (synthesis s) then
    let s := fire (has_onError cbs) id (OnError unsupported_message) s in
    resolve id (mkResult false (Some unsupported_message)) s
  else
    let s := stop s in
    let utterance := make_utterance id text options s in
    let s := register id cbs s in
    let s := set_current (Some utterance) s in
    match engine_throws with
    | None => set_queue (queue s ++ [id]) s
    | Some e =>
        let errorMessage := "Failed to start speech: " ++ e in
        let s := fire (has_onError cbs) id (OnError errorMessage) s in
        resolve id (mkResult false (Some errorMessage)) s
    end.

Definition handlers_of (id : nat) (s : State) : option Callbacks :=
  match find (fun p => Nat.eqb (fst p) id) (handlers s) with
  | Some p => Some (snd p)
  | None => None
  end.

Definition leave_queue (id : nat) (s : State) : State :=
  set_queue (filter (fun j => negb (Nat.eqb j id)) (queue s)) s.

(** The platform dispatches an event: the handler installed on that
    utterance runs ([onstart], [onend], [onerror], [onpause], [onresume]), or
    the [voiceschanged] listener reloads the catalog. *)
Definition dispatch (ev : Event) (s : State) : State :=
  match ev with
  | EvVoicesChanged catalog => loadVoices catalog s
  | EvStart id =>
      match handlers_of id s with
      | Some cbs => fire (has_onStart cbs) id OnStart s
      | None => s
      end
  | EvEnd id =>
      match handlers_of id s with
      | Some cbs =>
          let s := leave_queue id s in
          let s := set_current None s in
          let s := fire (has_onEnd cbs) id OnEnd s in
          resolve id (mkResult true None) s
      | None => s
      end
  | EvError id code =>
      match handlers_of id s with
      | Some cbs =>
          let s := leave_queue id s in
          let s := set_current None s in
          let errorMessage := "Speech synthesis error: " ++ code in
          let s := fire (has_onError cbs) id (OnError errorMessage) s in
          resolve id (mkResult false (Some errorMessage)) s
      | None => s
      end
  | EvPause id => s
  | EvResume id => s
  end.

(** [isSpeaking()], [isPaused()]: the engine's own flags. *)
Definition isSpeaking (s : State) : bool :=
  if synthesis s then negb (Nat.eqb (List.length (queue s)) 0) else false.

Definition isPaused (s : State) : bool :=
  if synthesis s then engine_paused s else false.

(** What happens to the adapter: calls of its methods and platform events. *)
Inductive Op :=
| OpSpeak (text : string) (options : SpeechOptions) (cbs : Callbacks)
          (engine_throws : option string)
| OpStop
| OpPause
| OpResume
| OpEvent (ev : Event).

Definition step (op : Op) (s : State) : State :=
  match op with
  | OpSpeak text options cbs thr => speak text options cbs thr s
  | OpStop => stop s
  | OpPause => pause s
  | OpResume => resume s
  | OpEvent ev => dispatch ev s
  end.

Fixpoint run (ops : list Op) (s : State) : State :=
  match ops with
  | [] => s
  | op :: rest => run rest (step op s)
  end.

(** Number of [onEnd]/[onError] invocations recorded for call [id]. *)
Definition is_completion (id : nat) (p : nat * Callback) : bool :=
  Nat.eqb (fst p) id &&
  match snd p with OnStart => false | OnEnd => true | OnError _ => true end.

Definition completions (id : nat) (s : State) : nat :=
  List.length (filter (is_completion id) (fired s)).

(** Utterances the engine holds: the one being spoken and those waiting. *)
Definition in_flight (s : State) : nat := List.length (queue s).

(** The platform reports the end or the failure of an utterance it still
    holds, and of no other. *)
Definition reports_held (op : Op) (s : State) : bool :=
  match op with
  | OpEvent (EvEnd id) => existsb (Nat.eqb id) (queue s)
  | OpEvent (EvError id _) => existsb (Nat.eqb id) (queue s)
  | _ => true
  end.

Fixpoint quiet_after_cancel (ops : list Op) (s : State) : bool :=
  match ops with
  | [] => true
  | op :: rest => reports_held op s && quiet_after_cancel rest (step op s)
  end.

(** Does the platform report the end or the failure of utterance [id]? *)
Definition reports (id : nat) (op : Op) : bool :=
  match op with
  | OpEvent (EvEnd j) => Nat.eqb j id
  | OpEvent (EvError j _) => Nat.eqb j id
  | _ => false
  end.

(** The engine holds nothing but the utterance recorded as current. *)
Definition holds_only_current (s : State) : Prop :=
  queue s = [] \/
  exists u, currentUtterance s = Some u /\ queue s = [u_id u].

(** Every identifier in use is below the call counter. *)
Definition numbered (s : State) : Prop :=
  (forall p, In p (fired s) -> fst p < nextId s) /\
  (forall p, In p (handlers s) -> fst p < nextId s) /\
  (forall id, In id (queue s) -> id < nextId s).

Definition consistent (s : State) : Prop :=
  holds_only_current s /\ numbered s /\ (synthesis s = false -> queue s = []).

Definition as_ops (events : list Event) : list Op := map OpEvent events.

(** The round trip of the specification: [speak(hello)] followed
    immediately by [speak(world)], then whatever the platform dispatches. *)
Definition round_trip (hello world : string) (cbs1 cbs2 : Callbacks)
           (events : list Event) (s : State) : State :=
  run (as_ops events)
      (speak world no_options cbs2 None (speak hello no_options cbs1 None s)).

(** "exactly one [onEnd]/[onError] firing for world and zero firing for
    hello", the two calls being numbered [nextId s] and [S (nextId s)]. *)
Definition superseded_is_silent (hello world : string) (events : list Event)
           (s : State) : Prop :=
  let s' := round_trip hello world all_callbacks all_callbacks events s in
  completions (nextId s) s' = 0 /\ completions (S (nextId s)) s' = 1.

(** Sample voices. *)
Definition zira : Voice := mkVoice "Microsoft Zira" "en-US" "microsoft zira".
Definition generic_gb : Voice := mkVoice "Generic" "en-GB" "generic".
Definition generic_fr : Voice := mkVoice "Generic" "fr-FR" "generic".

(** A voice named Karen with the Kelvin sign U+212A (in UTF-8 the bytes 226,
    132, 170) for its first letter; the platform lower-cases that sign to
    [k]. *)
Definition kelvin_karen : Voice :=
  mkVoice (String (ascii_of_nat 226)
             (String (ascii_of_nat 132) (String (ascii_of_nat 170) "aren")))
          "en-US" "karen".

(** The value the promise of call [id] was resolved with, if it has been. *)
Definition result_of (id : nat) (s : State) : option SpeechResult :=
  match find (fun p => Nat.eqb (fst p) id) (settled s) with
  | Some p => Some (snd p)
  | None => None
  end.

(** Promises and handlers exist only for calls already made. *)
Definition calls_numbered (s : State) : Prop :=
  (forall p, In p (settled s) -> fst p < nextId s) /\
  (forall p, In p (handlers s) -> fst p < nextId s).

(** No call has had more than one completion callback, and none that the
    engine still holds has had any. *)
Definition completes_once (s : State) : Prop :=
  forall id, completions id s <= 1 /\
             (In id (queue s) -> completions id s = 0).

(** The adapter after [speak] has cancelled, built its utterance, installed
    the handlers and stored the utterance as current, before the engine is
    asked to speak. *)
Definition prepared (text : string) (options : SpeechOptions)
           (cbs : Callbacks) (s : State) : State :=
  set_current
    (Some (make_utterance (nextId s) text options (stop (bump s))))
    (register (nextId s) cbs (stop (bump s))).

(** The snapshot returned by [getStatus()]. *)
Record Status := mkStatus {
  supported : bool;
  speaking : bool;
  paused : bool;
  voicesCount : nat;
  preferredVoice : option string
}.

(** [getStatus()]: the preferred voice is asked for the default language. *)
Definition getStatus (s : State) : Status :=
  let preferred := getPreferredVoice (voices s) "en-US" in
  mkStatus (isSupported s) (isSpeaking s) (isPaused s)
           (List.length (voices s))
           (match preferred with Some v => Some (name v) | None => None end).

End TTS.

(** ** The voice session handlers of [VoiceInterviewScreen] *)
Module Coordinator.

(** The session object returned by
    [VoiceInterviewService.startVoiceInterview]. *)
Record VoiceSession := mkSession {
  sessionId : string;
  wsUrl : string;
  participantToken : string;
  firstQuestion : option string
}.

(** The result of [VoiceInterviewService.processVoiceResponse]:
    [nextQuestion] holds [result.nextQuestion.question] when
    [result.nextQuestion] is present. *)
Record ProcessResult := mkProcessResult {
  isComplete : bool;
  nextQuestion : option string
}.

Inductive ConnectionStatus := disconnected | connecting | connected | error.

(** Calls that leave the component, in the order they are issued. *)
Inductive Call :=
| SvcStartVoiceInterview (participantName : string)
| SvcPauseInterview (sid : string)
| SvcResumeInterview (sid : string)
| SvcEndInterview (sid : string)
| SvcProcessVoiceResponse (sid : string) (text : string)
                          (audioLevel : Q) (duration : Z) (confidence : Q)
| SimulatorSubmitResponse (text : string)
| ConnectLiveKit
| DisconnectLiveKit
| StartAudio
| StopAudio
| StartListening
| StopListening
| ResetTranscript
| OnEndInterview
| ConsoleError (message : string).

(** The [useState] cells of the component. *)
Record Component := mkComponent {
  isInterviewActive : bool;
  currentQuestion : string;
  startTime : option Z;
  elapsedTime : Z;
  isThinking : bool;
  voiceSession : option VoiceSession;
  connectionStatus : ConnectionStatus;
  audioLevel : Q;
  participantName : string
}.

(** Modelled from the spec: the hooks [useSpeechRecognition] and
    [useLiveKit] are imported from files that are not part of the sources
    at hand.  Section 6 of the specification gives their interface:
    the speech input exposes [isListening] and [transcript] and is driven by
    [startListening], [stopListening] and [resetTranscript]; the transport
    exposes the local audio track as present or absent and is driven by
    [connect], [disconnect], [startAudio] and [stopAudio].  A call that
    fails leaves the state of its adapter as it was. *)
Record Hooks := mkHooks {
  isListening : bool;
  transcript : string;
  localAudioTrack : bool;
  transportConnected : bool
}.

(** Everything a handler can read or change: the component, the two hooks,
    the shared speech output adapter ([browserTTS]) and the calls issued so
    far. *)
Record World := mkWorld {
  comp : Component;
  hooks : Hooks;
  tts : TTS.State;
  trace : list Call
}.

(** The behaviour of the outside during one handler: the clock, the values
    the two value-returning service calls resolve with ([None]: the promise
    rejects), for every other call, whether it fails (an awaited promise
    rejects, a plain call throws), and the platform's [String.prototype.trim],
    which removes the leading and trailing white space and line terminators
    of Unicode. *)
Record Env := mkEnv {
  now : Z;
  start_result : option VoiceSession;
  process_result : option ProcessResult;
  fails : Call -> bool;
  trim : string -> string
}.

(** *** A state and exception monad for the handlers *)

Inductive Outcome (A : Type) :=
| Returned (a : A)
| Thrown.
Arguments Returned {A} a.
Arguments Thrown {A}.

Definition M (A : Type) : Type := World -> Outcome A * World.

Definition ret {A} (a : A) : M A := fun w => (Returned a, w).

Definition bind {A B} (m : M A) (k : A -> M B) : M B :=
  fun w => match m w with
           | (Returned a, w') => k a w'
           | (Thrown, w') => (Thrown, w')
           end.

Definition get : M World := fun w => (Returned w, w).

(** [try { body } catch (error) { handler }] *)
Definition try_catch (body handler : M unit) : M unit :=
  fun w => match body w with
           | (Returned a, w') => (Returned a, w')
           | (Thrown, w') => handler w'
           end.

(** A call of an [async] function whose promise is dropped: its effects
    happen, a failure inside stays in the dropped promise. *)
Definition detached (m : M unit) : M unit :=
  fun w => (Returned tt, snd (m w)).

Declare Scope handler_scope.
Delimit Scope handler_scope with handler.
Notation "x <- m ;; k" := (bind m (fun x => k))
  (at level 61, m at next level, right associativity) : handler_scope.
Notation "m ;; k" := (bind m (fun _ => k))
  (at level 61, right associativity) : handler_scope.
Local Open Scope handler_scope.

Definition modify_comp (f : Component -> Component) : M unit :=
  fun w => (Returned tt, mkWorld (f (comp w)) (hooks w) (tts w) (trace w)).

Definition record (c : Call) (w : World) : World :=
  mkWorld (comp w) (hooks w) (tts w) (trace w ++ [c]).

Definition with_hooks (f : Hooks -> Hooks) (w : World) : World :=
  mkWorld (comp w) (f (hooks w)) (tts w) (trace w).

(** *** State setters *)

Definition setIsInterviewActive (b : bool) : M unit :=
  modify_comp (fun c =>
    mkComponent b (currentQuestion c) (startTime c) (elapsedTime c)
                (isThinking c) (voiceSession c) (connectionStatus c)
                (audioLevel c) (participantName c)).

Definition setCurrentQuestion (q : string) : M unit :=
  modify_comp (fun c =>
    mkComponent (isInterviewActive c) q (startTime c) (elapsedTime c)
                (isThinking c) (voiceSession c) (connectionStatus c)
                (audioLevel c) (participantName c)).

Definition setStartTime (t : option Z) : M unit :=
  modify_comp (fun c =>
    mkComponent (isInterviewActive c) (currentQuestion c) t (elapsedTime c)
                (isThinking c) (voiceSession c) (connectionStatus c)
                (audioLevel c) (participantName c)).

Definition setIsThinking (b : bool) : M unit :=
  modify_comp (fun c =>
    mkComponent (isInterviewActive c) (currentQuestion c) (startTime c)
                (elapsedTime c) b (voiceSession c) (connectionStatus c)
                (audioLevel c) (participantName c)).

Definition setVoiceSession (s : option VoiceSession) : M unit :=
  modify_comp (fun c =>
    mkComponent (isInterviewActive c) (currentQuestion c) (startTime c)
                (elapsedTime c) (isThinking c) s (connectionStatus c)
                (audioLevel c) (participantName c)).

Definition setConnectionStatus (s : ConnectionStatus) : M unit :=
  modify_comp (fun c =>
    mkComponent (isInterviewActive c) (currentQuestion c) (startTime c)
                (elapsedTime c) (isThinking c) (voiceSession c) s
                (audioLevel c) (participantName c)).

(** [console.error(message, error)]: recorded, never fails. *)
Definition console_error (message : string) : M unit :=
  fun w => (Returned tt, record (ConsoleError message) w).

Section Handlers.

Variable env : Env.

(** A call to the outside: recorded; when it fails it throws and has no
    effect on the hooks, otherwise [effect] is what the hook does. *)
Definition call (c : Call) (effect : Hooks -> Hooks) : M unit :=
  fun w =>
    let w := record c w in
    if fails env c then (Thrown, w) else (Returned tt, with_hooks effect w).

Definition keep : Hooks -> Hooks := fun h => h.

Definition stopListening : M unit :=
  call StopListening (fun h =>
    mkHooks false (transcript h) (localAudioTrack h) (transportConnected h)).

Definition startListening : M unit :=
  call StartListening (fun h =>
    mkHooks true (transcript h) (localAudioTrack h) (transportConnected h)).

Definition resetTranscript : M unit :=
  call ResetTranscript (fun h =>
    mkHooks (isListening h) "" (localAudioTrack h) (transportConnected h)).

Definition stopAudio : M unit :=
  call StopAudio (fun h =>
    mkHooks (isListening h) (transcript h) false (transportConnected h)).

Definition startAudio : M unit :=
  call StartAudio (fun h =>
    mkHooks (isListening h) (transcript h) true (transportConnected h)).

Definition connectLiveKit : M unit :=
  call ConnectLiveKit (fun h =>
    mkHooks (isListening h) (transcript h) (localAudioTrack h) true).

Definition disconnectLiveKit : M unit :=
  call DisconnectLiveKit (fun h =>
    mkHooks (isListening h) (transcript h) (localAudioTrack h) false).

(** [await VoiceInterviewService.startVoiceInterview(config, participantName)] *)
Definition svc_startVoiceInterview (participant : string) : M VoiceSession :=
  fun w =>
    let w := record (SvcStartVoiceInterview participant) w in
    match start_result env with
    | Some session => (Returned session, w)
    | None => (Thrown, w)
    end.

(** The fixed recognition confidence sent with every response. *)
Definition confidence : Q := 9 # 10.

(** [await VoiceInterviewService.processVoiceResponse(sessionId, text, {...})] *)
Definition svc_processVoiceResponse (sid text : string) (level : Q)
           (duration : Z) : M ProcessResult :=
  fun w =>
    let w := record (SvcProcessVoiceResponse sid text level duration confidence) w in
    match process_result env with
    | Some r => (Returned r, w)
    | None => (Thrown, w)
    end.

(** [session.firstQuestion || ''] *)
Definition firstQuestion_or_empty (session : VoiceSession) : string :=
  match firstQuestion session with
  | Some q => if JS.truthy q then q else ""
  | None => ""
  end.

(** [startVoiceInterview] *)
Definition startVoiceInterview : M unit :=
  closure <- get ;;
  try_catch
    (setIsThinking true ;;
     setConnectionStatus connecting ;;
     session <- svc_startVoiceInterview (participantName (comp closure)) ;;
     setVoiceSession (Some session) ;;
     setCurrentQuestion (firstQuestion_or_empty session) ;;
     connectLiveKit ;;
     setIsInterviewActive true ;;
     setStartTime (Some (now env)) ;;
     setIsThinking false)
    (console_error "Error starting voice interview:" ;;
     setConnectionStatus error ;;
     setIsThinking false).

(** [pauseInterview] *)
Definition pauseInterview : M unit :=
  closure <- get ;;
  setIsInterviewActive false ;;
  stopListening ;;
  stopAudio ;;
  match voiceSession (comp closure) with
  | Some session =>
      try_catch
        (call (SvcPauseInterview (sessionId session)) keep)
        (console_error "Error pausing interview:")
  | None => ret tt
  end.

(** [resumeInterview] *)
Definition resumeInterview : M unit :=
  closure <- get ;;
  setIsInterviewActive true ;;
  match voiceSession (comp closure) with
  | Some session =>
      try_catch
        (call (SvcResumeInterview (sessionId session)) keep ;;
         startAudio)
        (console_error "Error resuming interview:")
  | None => ret tt
  end.

(** [endInterview] *)
Definition endInterview : M unit :=
  closure <- get ;;
  setIsInterviewActive false ;;
  stopListening ;;
  stopAudio ;;
  disconnectLiveKit ;;
  match voiceSession (comp closure) with
  | Some session =>
      try_catch
        (call (SvcEndInterview (sessionId session)) keep)
        (console_error "Error ending interview:")
  | None => ret tt
  end ;;
  call OnEndInterview keep.

(** [submitVoiceResponse].  [endInterview()] is called without [await]; the
    rest of it runs after [setIsThinking(false)], which touches nothing
    [endInterview] reads or writes, so the state after both is the one
    computed here. *)
Definition submitVoiceResponse : M unit :=
  closure <- get ;;
  let text := trim env (transcript (hooks closure)) in
  match JS.truthy text, voiceSession (comp closure) with
  | true, Some session =>
      stopListening ;;
      setIsThinking true ;;
      try_catch
        (result <- svc_processVoiceResponse
                     (sessionId session) text
                     (audioLevel (comp closure)) (elapsedTime (comp closure)) ;;
         call (SimulatorSubmitResponse text) keep ;;
         if isComplete result then detached endInterview
         else match nextQuestion result with
              | Some question =>
                  setCurrentQuestion question ;;
                  resetTranscript
              | None => ret tt
              end)
        (console_error "Error submitting voice response:") ;;
      setIsThinking false
  | _, _ => ret tt
  end.

(** [toggleMicrophone] *)
Definition toggleMicrophone : M unit :=
  closure <- get ;;
  if isListening (hooks closure) then
    stopListening ;;
    stopAudio
  else
    startAudio ;;
    startListening.

End Handlers.

(** The callbacks handed to [useLiveKit]. *)
Definition onConnected : M unit := setConnectionStatus connected.
Definition onDisconnected : M unit := setConnectionStatus disconnected.
Definition onError : M unit :=
  setConnectionStatus error ;; console_error "LiveKit error:".

(** The effect that follows the transport's flags
    ([livekitConnecting], [livekitConnected], [livekitError]); it runs
    between handlers, whenever one of the flags changes. *)
Definition followTransport (isConnecting isConnected hasError : bool)
  : M unit :=
  if isConnecting then setConnectionStatus connecting
  else if isConnected then setConnectionStatus connected
  else if hasError then setConnectionStatus error
  else setConnectionStatus disconnected.

(** The state a handler leaves behind. *)
Definition exec (m : M unit) (w : World) : World := snd (m w).

(** Did the handler complete without throwing? *)
Definition completes (m : M unit) (w : World) : bool :=
  match fst (m w) with Returned _ => true | Thrown => false end.

Definition is_OnEndInterview (c : Call) : bool :=
  match c with OnEndInterview => true | _ => false end.

(** The parent has been told the interview is over. *)
Definition ended (w : World) : bool := existsb is_OnEndInterview (trace w).

(** *** The session states of the specification

    The component keeps no such variable; the states of section 3 of the
    specification are read off its cells as follows: [Ended] once
    [onEndInterview] has been called, otherwise [Error] and [Connecting] by
    the connection status, otherwise [Active] when the interview is marked
    active, [Paused] when it is not but has been started, [Idle] when it
    has never been started. *)
Inductive SessionState := Idle | Connecting | Active | Paused | Ended | Error.

Definition sessionState (w : World) : SessionState :=
  if ended w then Ended
  else match connectionStatus (comp w) with
       | error => Error
       | connecting => Connecting
       | _ =>
           if isInterviewActive (comp w) then Active
           else match startTime (comp w) with
                | Some _ => Paused
                | None => Idle
                end
       end.

(** A sequence of [pause()] calls, each with its own outside behaviour. *)
Fixpoint pauses (envs : list Env) (w : World) : World :=
  match envs with
  | [] => w
  | env :: rest => pauses rest (exec (pauseInterview env) w)
  end.

Definition count_call (p : Call -> bool) (l : list Call) : nat :=
  List.length (filter p l).

Definition is_StopListening (c : Call) : bool :=
  match c with StopListening => true | _ => false end.
Definition is_StopAudio (c : Call) : bool :=
  match c with StopAudio => true | _ => false end.
Definition is_ConnectLiveKit (c : Call) : bool :=
  match c with ConnectLiveKit => true | _ => false end.
Definition is_SvcPauseInterview (c : Call) : bool :=
  match c with SvcPauseInterview _ => true | _ => false end.
Definition is_SvcResumeInterview (c : Call) : bool :=
  match c with SvcResumeInterview _ => true | _ => false end.
Definition is_SvcEndInterview (c : Call) : bool :=
  match c with SvcEndInterview _ => true | _ => false end.

(** *** The claims of the specification that the handlers do not meet,
    in its words *)

(** "calling [end()] results in state [Ended] and all of local audio,
    transport connection, speech-input listening, in-flight utterance
    released". *)
Definition spec_end_releases_everything (env : Env) (w : World) : Prop :=
  let w' := exec (endInterview env) w in
  sessionState w' = Ended /\
  isListening (hooks w') = false /\
  localAudioTrack (hooks w') = false /\
  transportConnected (hooks w') = false /\
  TTS.in_flight (tts w') = 0.

(** "transitions to [Error] ...; partial side effects (e.g., a created remote
    session with no transport connection) must be cleaned up by invoking
    end-session before surfacing the error". *)
Definition spec_start_failure_cleans_up (env : Env) (w : World) : Prop :=
  let w' := exec (startVoiceInterview env) w in
  sessionState w' = Error /\
  match start_result env with
  | Some session =>
      count_call is_SvcEndInterview (trace w) <
      count_call is_SvcEndInterview (trace w')
  | None =>
      count_call is_ConnectLiveKit (trace w') =
      count_call is_ConnectLiveKit (trace w)
  end.

(** "a second pause while already [Paused] is a no-op": the state remains
    [Paused] and no teardown call is issued again. *)
Definition spec_pause_idempotent (envs : list Env) (w : World) : Prop :=
  let w' := pauses envs w in
  sessionState w' = Paused /\ trace w' = trace w.

(** "if re-acquisition fails, transitions to [Error] rather than silently
    remaining [Paused]". *)
Definition spec_resume_failure_is_error (env : Env) (w : World) : Prop :=
  sessionState (exec (resumeInterview env) w) = Error.

(** *** Sample worlds and outside behaviours *)

Definition sample_session : VoiceSession :=
  mkSession "session-1" "wss://rooms.example" "token-1"
            (Some "Tell me about yourself.").

Definition idle_world : World :=
  mkWorld (mkComponent false "" None 0%Z false None disconnected 0
                       "participant-1")
          (mkHooks false "" false false)
          (TTS.initialize (Some [TTS.zira]))
          [].

(** A connected interview, the user speaking. *)
Definition active_world : World :=
  mkWorld (mkComponent true "Tell me about yourself." (Some 1000%Z) 5000%Z
                       false (Some sample_session) connected 0
                       "participant-1")
          (mkHooks true "I have five years of experience" true true)
          (TTS.initialize (Some [TTS.zira]))
          [SvcStartVoiceInterview "participant-1"; ConnectLiveKit].

(** The same interview after [pauseInterview]. *)
Definition paused_world : World :=
  mkWorld (mkComponent false "Tell me about yourself." (Some 1000%Z) 5000%Z
                       false (Some sample_session) connected 0
                       "participant-1")
          (mkHooks false "I have five years of experience" false true)
          (TTS.initialize (Some [TTS.zira]))
          [SvcStartVoiceInterview "participant-1"; ConnectLiveKit;
           StopListening; StopAudio; SvcPauseInterview "session-1"].

(** The active interview while the shared adapter speaks a question. *)
Definition speaking_world : World :=
  mkWorld (comp active_world) (hooks active_world)
          (TTS.speak "Tell me about yourself." TTS.no_options
                     TTS.all_callbacks None (tts active_world))
          (trace active_world).

Definition next_question_result : ProcessResult :=
  mkProcessResult false (Some "Tell me about a challenge you faced.").

(** The [trim] of the sample environments: [String.prototype.trim] on
    texts in UTF-8.  It removes from both ends the white space and line
    terminators of JavaScript: U+0009 to U+000D, U+0020, U+00A0, U+1680,
    U+2000 to U+200A, U+2028, U+2029, U+202F, U+205F, U+3000 and U+FEFF. *)
Definition utf8 (bytes : list nat) : string :=
  string_of_list_ascii (map ascii_of_nat bytes).

Definition white_space : list string :=
  [utf8 [9]; utf8 [10]; utf8 [11]; utf8 [12]; utf8 [13]; utf8 [32];
   utf8 [194; 160];
   utf8 [225; 154; 128];
   utf8 [226; 128; 128]; utf8 [226; 128; 129]; utf8 [226; 128; 130];
   utf8 [226; 128; 131]; utf8 [226; 128; 132]; utf8 [226; 128; 133];
   utf8 [226; 128; 134]; utf8 [226; 128; 135]; utf8 [226; 128; 136];
   utf8 [226; 128; 137]; utf8 [226; 128; 138];
   utf8 [226; 128; 168]; utf8 [226; 128; 169]; utf8 [226; 128; 175];
   utf8 [226; 129; 159];
   utf8 [227; 128; 128];
   utf8 [239; 187; 191]].

(** [s] without its prefix [p], when it begins with [p]. *)
Fixpoint after_prefix (p s : string) : option string :=
  match p, s with
  | EmptyString, _ => Some s
  | String a p', String c s' =>
      if Ascii.eqb a c then after_prefix p' s' else None
  | String _ _, EmptyString => None
  end.

(** [s] without the first of [patterns] it begins with. *)
Fixpoint after_one_of (patterns : list string) (s : string) : option string :=
  match patterns with
  | [] => None
  | p :: rest =>
      match after_prefix p s with
      | Some r => Some r
      | None => after_one_of rest s
      end
  end.

(** Removes leading [patterns] as long as there are any, at most [fuel]
    times; the length of the string is fuel enough. *)
Fixpoint strip_leading (patterns : list string) (fuel : nat) (s : string)
  : string :=
  match fuel with
  | 0 => s
  | S fuel' =>
      match after_one_of patterns s with
      | Some r => strip_leading patterns fuel' r
      | None => s
      end
  end.

Definition reverse (s : string) : string :=
  string_of_list_ascii (rev (list_ascii_of_string s)).

Definition trimStart (s : string) : string :=
  strip_leading white_space (String.length s) s.

Definition trimEnd (s : string) : string :=
  reverse (strip_leading (map reverse white_space) (String.length s)
                         (reverse s)).

Definition sample_trim (s : string) : string := trimEnd (trimStart s).

(** A no-break space, U+00A0. *)
Definition nbsp : string := utf8 [194; 160].

(** Every call succeeds. *)
Definition all_succeed : Env :=
  mkEnv 2000%Z (Some sample_session) (Some next_question_result)
        (fun _ => false) sample_trim.

(** The session is created, the transport connection is refused. *)
Definition connect_rejects : Env :=
  mkEnv 2000%Z (Some sample_session) (Some next_question_result)
        is_ConnectLiveKit sample_trim.

(** The session cannot be created. *)
Definition start_rejects : Env :=
  mkEnv 2000%Z None None (fun _ => false) sample_trim.

(** The remote service refuses to resume. *)
Definition resume_rejects : Env :=
  mkEnv 2000%Z (Some sample_session) (Some next_question_result)
        is_SvcResumeInterview sample_trim.

(** [stopListening()] throws. *)
Definition stopListening_throws : Env :=
  mkEnv 2000%Z (Some sample_session) (Some next_question_result)
        is_StopListening sample_trim.

(** The response cannot be processed. *)
Definition process_rejects : Env :=
  mkEnv 2000%Z (Some sample_session) None (fun _ => false) sample_trim.

(** The response is processed, the interview goes on, no question follows. *)
Definition no_next_question : Env :=
  mkEnv 2000%Z (Some sample_session) (Some (mkProcessResult false None))
        (fun _ => false) sample_trim.

(** [formatTime(ms)] for a whole number of milliseconds below [2^53] in
    absolute value (the integers a JavaScript number holds exactly), which
    is where this definition stands for the source: there the quotients of
    the source are rounded to numbers with the same integer part, so that
    [Math.floor] of a quotient is the floor division of [Z], [%] is the
    remainder that takes the sign of the dividend, and the number printed is
    an integer written with all its digits. *)
Definition formatTime (ms : Z) : string :=
  let minutes := (ms / 60000)%Z in
  let seconds := (Z.rem ms 60000 / 1000)%Z in
  JS.number_toString minutes ++ ":" ++ JS.padStart2 (JS.number_toString seconds).

(** *** What the screen lets happen

    The buttons of the screen and the callbacks of the transport: the
    start button (labelled "Resume" once an interview has been started)
    calls [startVoiceInterview], the pause button [pauseInterview], the end
    button [endInterview], the submit button [submitVoiceResponse], the
    microphone button [toggleMicrophone]; [resumeInterview] is bound to no
    control. *)
Inductive Action :=
| PressStart (env : Env)
| PressPause (env : Env)
| PressEnd (env : Env)
| PressSubmit (env : Env)
| PressMicrophone (env : Env)
| TransportConnected
| TransportDisconnected
| TransportFailed
| TransportFlags (isConnecting isConnected hasError : bool).

Definition perform (a : Action) (w : World) : World :=
  match a with
  | PressStart env => exec (startVoiceInterview env) w
  | PressPause env => exec (pauseInterview env) w
  | PressEnd env => exec (endInterview env) w
  | PressSubmit env => exec (submitVoiceResponse env) w
  | PressMicrophone env => exec (toggleMicrophone env) w
  | TransportConnected => exec onConnected w
  | TransportDisconnected => exec onDisconnected w
  | TransportFailed => exec onError w
  | TransportFlags a b c => exec (followTransport a b c) w
  end.

Fixpoint performs (actions : list Action) (w : World) : World :=
  match actions with
  | [] => w
  | a :: rest => performs rest (perform a w)
  end.

(** An interview marked active has a session handle and a start time. *)
Definition active_has_session (w : World) : Prop :=
  isInterviewActive (comp w) = true ->
  voiceSession (comp w) <> None /\ startTime (comp w) <> None.

(** What a handler leaves alone: the session handle, the start time and
    the shared speech output adapter. *)
Definition keeps_session (w w' : World) : Prop :=
  voiceSession (comp w') = voiceSession (comp w) /\
  startTime (comp w') = startTime (comp w) /\
  tts w' = tts w.

Definition is_DisconnectLiveKit (c : Call) : bool :=
  match c with DisconnectLiveKit => true | _ => false end.

End Coordinator.

(** * Properties *)

Local Open Scope list_scope.

(** ** Preferred voice *)
Section PreferredVoice.

Import TTS.

Lemma filter_head_find {A} (p : A -> bool) (l : list A) :
  nth_error (filter p l) 0 = find p l.
Proof.
  induction l as [|a l IH]; simpl; [reflexivity|].
  destruct (p a); simpl; [reflexivity | exact IH].
Qed.

Lemma filter_empty_find {A} (p : A -> bool) (l : list A) :
  (0 <? List.length (filter p l))%nat = false -> find p l = None.
Proof.
  induction l as [|a l IH]; simpl; [reflexivity|].
  destruct (p a); simpl; [discriminate | exact IH].
Qed.

Lemma filter_nonempty_find {A} (p : A -> bool) (l : list A) :
  (0 <? List.length (filter p l))%nat = true -> exists a, find p l = Some a.
Proof.
  induction l as [|a l IH]; simpl; [discriminate|].
  destruct (p a); simpl; [intros _; now exists a | exact IH].
Qed.

Lemma find_none_existsb {A} (p : A -> bool) (l : list A) :
  existsb p l = false -> find p l = None.
Proof.
  induction l as [|a l IH]; simpl; [reflexivity|].
  destruct (p a); simpl; [discriminate | exact IH].
Qed.

(** The chain of [includes] tests is the membership test over the token
    list. *)
Lemma name_hints_female_tokens (v : Voice) :
  name_hints_female v = spec_name_matches v.
Proof.
  unfold name_hints_female, spec_name_matches, female_tokens.
  cbn [existsb].
  rewrite orb_false_r, <- !orb_assoc. reflexivity.
Qed.

Lemma find_ext {A} (p q : A -> bool) (l : list A) :
  (forall a, p a = q a) -> find p l = find q l.
Proof.
  intros E; induction l as [|a l IH]; simpl; [reflexivity|].
  rewrite E, IH. reflexivity.
Qed.

Lemma getPreferredVoice_tiers (catalog : list Voice) (lang0 : string) :
  getPreferredVoice catalog lang0 = three_tier (lang_matches lang0) catalog.
Proof.
  unfold getPreferredVoice, three_tier.
  rewrite (find_ext (fun v => lang_matches lang0 v && spec_name_matches v)
                    (fun v => lang_matches lang0 v && name_hints_female v))
    by (intros a; cbv beta; now rewrite name_hints_female_tokens).
  destruct (0 <? List.length (filter _ catalog))%nat eqn:F.
  - rewrite filter_head_find.
    destruct (filter_nonempty_find _ _ F) as [a Ha]. now rewrite Ha.
  - rewrite (filter_empty_find _ _ F).
    destruct (0 <? List.length (filter (fun voice => lang_matches lang0 voice)
                                       catalog))%nat eqn:G.
    + rewrite filter_head_find.
      destruct (filter_nonempty_find _ _ G) as [a Ha].
      change (find (lang_matches lang0) catalog = Some a) in Ha.
      rewrite Ha.
      change (find (fun voice => lang_matches lang0 voice) catalog)
        with (find (lang_matches lang0) catalog).
      now rewrite Ha.
    + apply filter_empty_find in G.
      change (find (lang_matches lang0) catalog = None) in G.
      rewrite G.
      destruct catalog; reflexivity.
Qed.

(** C7, the claim as stated, fails: the language test of the source is
    [startsWith] on the tags as they are, so a request for ["EN-US"] does not
    match the tag ["en-US"] of Microsoft Zira and the first voice of the
    catalog is returned, where a comparison ignoring case selects Zira. *)
Lemma getPreferredVoice_language_case_matters :
  getPreferredVoice [generic_fr; zira] "EN-US" = Some generic_fr /\
  selectPreferredVoice_spec [generic_fr; zira] "EN-US" = Some zira /\
  getPreferredVoice [generic_fr; zira] "EN-US"
    <> selectPreferredVoice_spec [generic_fr; zira] "EN-US".
Proof.
  split; [reflexivity|]. split; [reflexivity|].
  vm_compute. discriminate.
Qed.

(** C7, amended: [getPreferredVoice] is the three-tier fallback in which the
    voice name is compared with the feminine-name tokens ignoring case (the
    name as the platform lower-cases it contains a token) and the language
    tag is compared with the primary subtag of the request as written (case
    matters): first voice passing both tests, else first voice passing the
    language test, else first voice of the catalog, else none.
    For ["en-US"] over Microsoft Zira/en-US and Generic/en-GB, in either
    order, it returns Microsoft Zira; over a non-empty catalog none of whose
    tags starts with the primary subtag it returns the first voice. *)
Theorem getPreferredVoice_three_tier :
  forall (catalog : list Voice) (lang0 : string),
    getPreferredVoice catalog lang0 = three_tier (lang_matches lang0) catalog /\
    getPreferredVoice [zira; generic_gb] "en-US" = Some zira /\
    getPreferredVoice [generic_gb; zira] "en-US" = Some zira /\
    (forall first rest,
        catalog = first :: rest ->
        existsb (lang_matches lang0) catalog = false ->
        getPreferredVoice catalog lang0 = Some first).
Proof.
  intros catalog lang0.
  split; [apply getPreferredVoice_tiers|].
  split; [reflexivity|]. split; [reflexivity|].
  intros first rest -> H.
  rewrite getPreferredVoice_tiers. unfold three_tier.
  rewrite (find_none_existsb _ _ H).
  assert (E : find (fun v => lang_matches lang0 v && spec_name_matches v)
                   (first :: rest) = None).
  { apply find_none_existsb.
    revert H. generalize (first :: rest). intros l.
    induction l as [|a l IH]; simpl; [reflexivity|].
    destruct (lang_matches lang0 a); simpl; [discriminate | exact IH]. }
  rewrite E. reflexivity.
Qed.

(** The French request of the specification, over a catalog without a
    French voice. *)
Lemma getPreferredVoice_three_tier_witness :
  existsb (lang_matches "fr-FR") [generic_gb; zira] = false /\
  getPreferredVoice [generic_gb; zira] "fr-FR" = Some generic_gb.
Proof.
  split; [reflexivity|].
  apply (proj2 (proj2 (proj2
           (getPreferredVoice_three_tier [generic_gb; zira] "fr-FR")))
           generic_gb [zira]); reflexivity.
Defined.

Lemma find_in {A} (p : A -> bool) (l : list A) (a : A) :
  find p l = Some a -> In a l /\ p a = true.
Proof. apply find_some. Qed.

Lemma find_existsb {A} (p : A -> bool) (l : list A) :
  existsb p l = true -> exists a, find p l = Some a.
Proof.
  induction l as [|a l IH]; simpl; [discriminate|].
  destruct (p a); simpl; [intros _; now exists a | exact IH].
Qed.

Lemma preferred_member (catalog : list Voice) (lang0 : string) (v : Voice) :
  getPreferredVoice catalog lang0 = Some v -> In v catalog.
Proof.
  rewrite getPreferredVoice_tiers. unfold three_tier.
  destruct (find _ catalog) as [a|] eqn:F.
  - intros [= <-]. now apply find_in in F.
  - destruct (find (lang_matches lang0) catalog) as [a|] eqn:G.
    + intros [= <-]. now apply find_in in G.
    + destruct catalog; simpl; [discriminate|]. intros [= <-]. now left.
Qed.

Lemma preferred_none (catalog : list Voice) (lang0 : string) :
  getPreferredVoice catalog lang0 = None <-> catalog = [].
Proof.
  rewrite getPreferredVoice_tiers. unfold three_tier.
  split.
  - destruct (find _ catalog); [discriminate|].
    destruct (find (lang_matches lang0) catalog); [discriminate|].
    destruct catalog; [reflexivity | discriminate].
  - intros ->. reflexivity.
Qed.

(** X1: the preferred voice is always taken from the catalog. *)
Theorem getPreferredVoice_in_catalog :
  forall (catalog : list Voice) (lang0 : string) (v : Voice),
    getPreferredVoice catalog lang0 = Some v -> In v catalog.
Proof.
  intros catalog lang0 v. rewrite getPreferredVoice_tiers. unfold three_tier.
  destruct (find _ catalog) as [a|] eqn:F.
  - intros [= <-]. now apply find_in in F.
  - destruct (find (lang_matches lang0) catalog) as [a|] eqn:G.
    + intros [= <-]. now apply find_in in G.
    + destruct catalog; simpl; [discriminate|]. intros [= <-]. now left.
Qed.

Lemma getPreferredVoice_in_catalog_witness :
  In zira [generic_gb; zira].
Proof.
  apply (getPreferredVoice_in_catalog [generic_gb; zira] "en-US" zira).
  reflexivity.
Defined.

(** X2: no voice is returned exactly when the catalog is empty, whatever
    the requested language. *)
Theorem getPreferredVoice_none_iff_empty :
  forall (catalog : list Voice) (lang0 : string),
    getPreferredVoice catalog lang0 = None <-> catalog = [].
Proof.
  intros catalog lang0. rewrite getPreferredVoice_tiers. unfold three_tier.
  split.
  - destruct (find _ catalog); [discriminate|].
    destruct (find (lang_matches lang0) catalog); [discriminate|].
    destruct catalog; [reflexivity | discriminate].
  - intros ->. reflexivity.
Qed.

(** X3: when some voice of the catalog has a tag starting with the primary
    subtag of the request, the returned voice has such a tag, and it is the
    first voice that also carries a feminine-name hint if there is one,
    otherwise the first voice with such a tag. *)
Theorem getPreferredVoice_respects_language :
  forall (catalog : list Voice) (lang0 : string),
    existsb (lang_matches lang0) catalog = true ->
    exists v,
      getPreferredVoice catalog lang0 = Some v /\
      lang_matches lang0 v = true /\
      (existsb (fun x => lang_matches lang0 x && name_hints_female x) catalog
         = true ->
       name_hints_female v = true /\
       find (fun x => lang_matches lang0 x && name_hints_female x) catalog
         = Some v) /\
      (existsb (fun x => lang_matches lang0 x && name_hints_female x) catalog
         = false ->
       find (lang_matches lang0) catalog = Some v).
Proof.
  intros catalog lang0 H. rewrite getPreferredVoice_tiers. unfold three_tier.
  rewrite (find_ext (fun v => lang_matches lang0 v && spec_name_matches v)
                    (fun v => lang_matches lang0 v && name_hints_female v))
    by (intros a; cbv beta; now rewrite name_hints_female_tokens).
  destruct (existsb (fun x => lang_matches lang0 x && name_hints_female x)
                    catalog) eqn:F.
  - destruct (find_existsb _ _ F) as [a Ha]. rewrite Ha.
    exists a. destruct (find_in _ _ _ Ha) as [_ P].
    apply andb_true_iff in P as [P1 P2].
    repeat split; auto. discriminate.
  - rewrite (find_none_existsb _ _ F).
    destruct (find_existsb _ _ H) as [a Ha]. rewrite Ha.
    exists a. destruct (find_in _ _ _ Ha) as [_ P].
    repeat split; auto; discriminate.
Qed.

(** Among two English voices the one with a hint is returned, here a hint
    that only the platform's case mapping reveals. *)
Lemma getPreferredVoice_respects_language_witness :
  getPreferredVoice [generic_fr; generic_gb; kelvin_karen] "en-US"
    = Some kelvin_karen.
Proof.
  destruct (getPreferredVoice_respects_language
              [generic_fr; generic_gb; kelvin_karen] "en-US" eq_refl)
    as (v & A & _ & C & _).
  destruct (C eq_refl) as [_ F].
  rewrite A, <- F. reflexivity.
Defined.

Lemma startsWith_empty s : JS.startsWith s "" = true.
Proof. destruct s; reflexivity. Qed.

(** X4: a request whose primary subtag is empty (the empty string, or a tag
    beginning with a hyphen) puts no constraint on the language: the first
    voice with a feminine-name hint is returned whatever its language, else
    the first voice of the catalog. *)
Theorem getPreferredVoice_empty_subtag :
  forall (catalog : list Voice) (lang0 : string),
    JS.split_hyphen_0 lang0 = "" ->
    getPreferredVoice catalog lang0 =
      match find name_hints_female catalog with
      | Some v => Some v
      | None => hd_error catalog
      end.
Proof.
  intros catalog lang0 H. rewrite getPreferredVoice_tiers. unfold three_tier.
  assert (L : forall v, lang_matches lang0 v = true)
    by (intros v; unfold lang_matches; rewrite H; apply startsWith_empty).
  rewrite (find_ext (fun v => lang_matches lang0 v && spec_name_matches v)
                    name_hints_female)
    by (intros a; cbv beta; now rewrite L, name_hints_female_tokens).
  destruct (find name_hints_female catalog); [reflexivity|].
  destruct catalog as [|a l]; simpl; [reflexivity|]. now rewrite L.
Qed.

Lemma getPreferredVoice_empty_subtag_witness :
  getPreferredVoice [generic_fr; zira] "" = Some zira.
Proof.
  rewrite (getPreferredVoice_empty_subtag [generic_fr; zira] "" eq_refl).
  reflexivity.
Defined.

End PreferredVoice.

(** ** One utterance at a time *)
Section Utterances.

Import TTS.

(** Evaluates the adapter's methods on a state whose fields are variables;
    call by value keeps the intermediate records small. *)
Ltac eval_state :=
  cbv [step speak stop pause resume dispatch loadVoices leave_queue
       fire resolve register bump set_current set_queue set_engine_paused
       set_voices is_settled handlers_of in_flight completions
       synthesis voices isSupported currentUtterance queue engine_paused
       handlers nextId fired settled
       has_onStart has_onEnd has_onError all_callbacks negb orb andb
       make_utterance u_id u_text] in *.

Ltac split_ifs :=
  repeat match goal with
         | |- context [if ?b then _ else _] => destruct b eqn:?
         | |- context [match ?o with Some _ => _ | None => _ end] =>
             destruct o eqn:?
         end.

Ltac open_state s :=
  let syn := fresh "syn" in
  let sup := fresh "sup" in
  let cur := fresh "cur" in
  destruct s as [syn ? sup cur ? ? ? ? ? ?];
  destruct syn, sup, cur; eval_state.

Lemma step_support op s :
  isSupported (step op s) = isSupported s /\
  synthesis (step op s) = synthesis s.
Proof.
  destruct op as [text options [? ? onerr] thr| | | |ev].
  - destruct onerr, thr; open_state s; split_ifs; split; reflexivity.
  - open_state s; split; reflexivity.
  - open_state s; split; reflexivity.
  - open_state s; split; reflexivity.
  - destruct ev; open_state s; split_ifs; split; reflexivity.
Qed.

Lemma run_support ops : forall s,
  isSupported (run ops s) = isSupported s /\
  synthesis (run ops s) = synthesis s.
Proof.
  induction ops as [|op ops IH]; intros s; simpl; [auto|].
  destruct (IH (step op s)) as [A B], (step_support op s) as [C D].
  split; congruence.
Qed.

Ltac use_bounds :=
  repeat match goal with
         | H : In _ (_ ++ _) |- _ => apply in_app_or in H; destruct H
         | H : In _ (_ :: _) |- _ => destruct H as [<-|H]
         | H : In _ [] |- _ => destruct H
         | H : forall p, In p ?l -> _, H1 : In ?x ?l |- _ =>
             pose proof (H _ H1); clear H1
         end;
  simpl in *; try lia.

Ltac queue_cases H :=
  destruct H as [H|(?u & ?Hu & H)];
  [|try discriminate; try (injection Hu as <-)]; try subst.

Lemma consistent_initialize platform : consistent (initialize platform).
Proof.
  destruct platform; repeat split; simpl; auto; try (now left);
    intros ? [].
Qed.

Lemma consistent_speak text options cbs thr s :
  consistent s -> consistent (speak text options cbs thr s).
Proof.
  destruct cbs as [? ? onerr].
  unfold consistent, holds_only_current, numbered.
  intros (Hq & (Hf & Hh & Hn) & Hs).
  destruct onerr, thr; open_state s; split_ifs.
  all: try (specialize (Hs eq_refl); subst).
  all: queue_cases Hq.
  all: repeat split; intros; try discriminate; auto.
  all: try (left; reflexivity).
  all: try (right; eexists; split; reflexivity).
  all: use_bounds.
  all: apply Nat.lt_lt_succ_r, Hn; left; reflexivity.
Qed.

Lemma consistent_stop s : consistent s -> consistent (stop s).
Proof.
  unfold consistent, holds_only_current, numbered.
  intros (Hq & (Hf & Hh & Hn) & Hs).
  open_state s; repeat split; auto; intros ? [].
Qed.

Lemma consistent_pause s : consistent s -> consistent (pause s).
Proof.
  unfold consistent, holds_only_current, numbered.
  intros (Hq & (Hf & Hh & Hn) & Hs).
  open_state s; repeat split; auto.
Qed.

Lemma consistent_resume s : consistent s -> consistent (resume s).
Proof.
  unfold consistent, holds_only_current, numbered.
  intros (Hq & (Hf & Hh & Hn) & Hs).
  open_state s; repeat split; auto.
Qed.

Lemma held_is_current id s :
  holds_only_current s -> existsb (Nat.eqb id) (queue s) = true ->
  queue s = [id] /\ filter (fun j => negb (Nat.eqb j id)) (queue s) = [].
Proof.
  intros [Hq|(u & Hu & Hq)] H; rewrite Hq in *; simpl in *; [discriminate|].
  rewrite orb_false_r in H. apply Nat.eqb_eq in H. subst id.
  now rewrite Nat.eqb_refl.
Qed.

(** An utterance that ends or fails while the engine holds it. *)
Lemma consistent_finish id cbs c r s :
  consistent s -> existsb (Nat.eqb id) (queue s) = true ->
  consistent (resolve id r (fire cbs id c (set_current None (leave_queue id s)))).
Proof.
  unfold consistent, numbered.
  intros (Hq & (Hf & Hh & Hn) & Hs) Hr.
  destruct (held_is_current id s Hq Hr) as [Q E].
  assert (id < nextId s) by (apply Hn; rewrite Q; now left).
  unfold holds_only_current.
  destruct s as [syn ? sup cur q ? ? ? ? ?]; eval_state.
  simpl in E. rewrite E.
  destruct cbs; split_ifs; repeat split; auto; intros; use_bounds.
Qed.

Lemma handlers_of_bound id cbs s :
  handlers_of id s = Some cbs -> numbered s -> id < nextId s.
Proof.
  unfold handlers_of. intros H (_ & Hh & _).
  destruct (find _ (handlers s)) as [p|] eqn:F; [|discriminate].
  apply find_some in F as [F1 F2]. apply Nat.eqb_eq in F2. subst id.
  now apply Hh.
Qed.

Lemma consistent_dispatch ev s :
  consistent s -> reports_held (OpEvent ev) s = true ->
  consistent (dispatch ev s).
Proof.
  intros H Hr.
  destruct ev as [id|id|id code|id|id|catalog]; simpl in Hr;
    cbv [dispatch]; try assumption.
  - destruct (handlers_of id s) as [[? ? ?]|] eqn:E; [|assumption].
    apply handlers_of_bound in E; [|apply H].
    revert H. unfold consistent, holds_only_current, numbered.
    intros (Hq & (Hf & Hh & Hn) & Hs).
    destruct s as [syn ? sup cur q ? ? ? ? ?]; eval_state.
    split_ifs; repeat split; auto; intros; use_bounds.
  - destruct (handlers_of id s) as [cbs|]; [|assumption].
    now apply consistent_finish.
  - destruct (handlers_of id s) as [cbs|]; [|assumption].
    now apply consistent_finish.
  - revert H. unfold consistent, holds_only_current, numbered.
    intros (Hq & (Hf & Hh & Hn) & Hs).
    destruct s as [syn ? sup cur q ? ? ? ? ?]; eval_state.
    split_ifs; repeat split; auto.
Qed.

Lemma consistent_step op s :
  consistent s -> reports_held op s = true -> consistent (step op s).
Proof.
  destruct op; intros H R; cbv [step].
  - now apply consistent_speak.
  - now apply consistent_stop.
  - now apply consistent_pause.
  - now apply consistent_resume.
  - now apply consistent_dispatch.
Qed.

Lemma consistent_run ops : forall s,
  consistent s -> quiet_after_cancel ops s = true -> consistent (run ops s).
Proof.
  induction ops as [|op ops IH]; intros s H Q; simpl in *; [assumption|].
  apply andb_true_iff in Q as [Q1 Q2].
  apply IH; [now apply consistent_step | assumption].
Qed.

Lemma consistent_in_flight s : consistent s -> in_flight s <= 1.
Proof.
  intros ([Hq|(u & _ & Hq)] & _); unfold in_flight; rewrite Hq; simpl; lia.
Qed.

(** What [speak] does on a supported adapter whose engine accepts the
    utterance. *)
Lemma speak_accepted text options cbs s :
  isSupported s = true -> synthesis s = true ->
  let s' := speak text options cbs None s in
  queue s' = (match currentUtterance s with
              | Some _ => []
              | None => queue s
              end) ++ [nextId s] /\
  (exists u, currentUtterance s' = Some u /\ u_id u = nextId s /\
             u_text u = text) /\
  handlers s' = handlers s ++ [(nextId s, cbs)] /\
  fired s' = fired s /\
  nextId s' = S (nextId s) /\
  isSupported s' = true /\ synthesis s' = true.
Proof.
  intros Hsup Hsyn.
  destruct s as [syn ? sup cur q ? ? ? ? ?]; simpl in Hsup, Hsyn; subst.
  destruct cur; eval_state; repeat split; eauto.
Qed.

Lemma handlers_of_same id s s' :
  handlers s' = handlers s -> handlers_of id s' = handlers_of id s.
Proof. unfold handlers_of. now intros ->. Qed.

Lemma completions_fire present id c j s :
  completions j (fire present id c s) =
  completions j s +
  (if present && is_completion j (id, c) then 1 else 0).
Proof.
  unfold completions, fire.
  destruct present; simpl; [|lia].
  rewrite filter_app, length_app. simpl.
  destruct (is_completion j (id, c)); simpl; lia.
Qed.

Lemma resolve_same id r s :
  handlers (resolve id r s) = handlers s /\
  queue (resolve id r s) = queue s /\
  fired (resolve id r s) = fired s.
Proof. unfold resolve. destruct (is_settled id s); simpl; auto. Qed.

Lemma fire_same present id c s :
  handlers (fire present id c s) = handlers s /\
  queue (fire present id c s) = queue s.
Proof. unfold fire. destruct present; simpl; auto. Qed.

Lemma completions_resolve id r j s :
  completions j (resolve id r s) = completions j s.
Proof. unfold completions. now rewrite (proj2 (proj2 (resolve_same id r s))). Qed.

(** An event that reports neither an end nor a failure changes neither the
    engine's queue nor the count of completion callbacks. *)
Lemma dispatch_other ev s :
  (forall id, reports id (OpEvent ev) = false) ->
  handlers (dispatch ev s) = handlers s /\
  queue (dispatch ev s) = queue s /\
  forall j, completions j (dispatch ev s) = completions j s.
Proof.
  intros H.
  destruct ev as [id|id|id code|id|id|catalog]; cbv [dispatch]; auto.
  - destruct (handlers_of id s) as [cbs|]; auto.
    destruct (fire_same (has_onStart cbs) id OnStart s) as [A B].
    repeat split; auto. intros j. rewrite completions_fire.
    unfold is_completion. simpl. rewrite andb_false_r, andb_false_r. lia.
  - specialize (H id). simpl in H. now rewrite Nat.eqb_refl in H.
  - specialize (H id). simpl in H. now rewrite Nat.eqb_refl in H.
  - unfold loadVoices. destruct (synthesis s); auto.
Qed.

(** The end or the failure of the utterance the engine holds, all callbacks
    having been passed: the queue empties and one completion callback fires,
    for that utterance only. *)
Lemma finish_counts id c r s :
  queue s = [id] ->
  (match c with OnStart => false | _ => true end) = true ->
  let s' := resolve id r (fire true id c (set_current None (leave_queue id s))) in
  handlers s' = handlers s /\ queue s' = [] /\
  completions id s' = S (completions id s) /\
  forall j, j <> id -> completions j s' = completions j s.
Proof.
  intros Q C s'. subst s'.
  destruct (resolve_same id r
              (fire true id c (set_current None (leave_queue id s))))
    as (A & B & _).
  rewrite A, B. clear A B.
  split; [reflexivity|]. split.
  { unfold leave_queue. simpl. rewrite Q. simpl. now rewrite Nat.eqb_refl. }
  split.
  - rewrite completions_resolve, completions_fire.
    unfold is_completion. simpl. rewrite Nat.eqb_refl, C. simpl.
    unfold completions. simpl. lia.
  - intros j Hj. rewrite completions_resolve, completions_fire.
    unfold is_completion. simpl.
    apply Nat.eqb_neq in Hj. rewrite Nat.eqb_sym, Hj. simpl.
    unfold completions. simpl. lia.
Qed.

Lemma held_in_singleton id w s :
  queue s = [w] \/ queue s = [] ->
  existsb (Nat.eqb id) (queue s) = true -> id = w /\ queue s = [w].
Proof.
  intros [Q|Q] H; rewrite Q in H; simpl in H; [|discriminate].
  rewrite orb_false_r in H. apply Nat.eqb_eq in H. auto.
Qed.

(** Events arriving while [world] is the only utterance the engine may
    hold. *)
Lemma events_while_awaiting hello world events : forall s,
  hello <> world ->
  handlers_of world s = Some all_callbacks ->
  queue s = [world] \/ queue s = [] ->
  quiet_after_cancel (as_ops events) s = true ->
  let s' := run (as_ops events) s in
  completions hello s' = completions hello s /\
  completions world s' =
    completions world s +
    (if existsb (reports world) (as_ops events) then 1 else 0) /\
  (queue s = [] -> existsb (reports world) (as_ops events) = false) /\
  (queue s' = [world] \/ queue s' = []).
Proof.
  induction events as [|ev events IH]; intros s Hne Hh Hq Quiet; simpl in *.
  { repeat split; auto; lia. }
  apply andb_true_iff in Quiet as [Held Quiet].
  assert (Report : forall id c r,
             existsb (Nat.eqb id) (queue s) = true ->
             (match c with OnStart => false | _ => true end) = true ->
             dispatch ev s =
               resolve id r (fire true id c (set_current None (leave_queue id s))) ->
             reports world (OpEvent ev) = true ->
             completions hello (run (as_ops events) (dispatch ev s)) =
               completions hello s /\
             completions world (run (as_ops events) (dispatch ev s)) =
               completions world s + 1 /\
             (queue s = [] -> False) /\
             (queue (run (as_ops events) (dispatch ev s)) = [world] \/
              queue (run (as_ops events) (dispatch ev s)) = [])).
  { intros id c r Hin Hc E _.
    destruct (held_in_singleton id world s Hq Hin) as [-> Q].
    destruct (finish_counts world c r s Q Hc) as (A & B & C & D).
    rewrite <- E in A, B, C, D.
    destruct (IH (dispatch ev s) Hne) as (I1 & I2 & I3 & I4); auto.
    { now rewrite (handlers_of_same _ _ _ A). }
    rewrite (I3 B) in I2.
    rewrite I1, I2, C, (D hello Hne).
    repeat split; auto; try lia.
    intros Q'. rewrite Q' in Q. discriminate. }
  assert (Other : (forall id, reports id (OpEvent ev) = false) ->
             completions hello (run (as_ops events) (dispatch ev s)) =
               completions hello s /\
             completions world (run (as_ops events) (dispatch ev s)) =
               completions world s +
               (if existsb (reports world) (as_ops events) then 1 else 0) /\
             (queue s = [] ->
              existsb (reports world) (as_ops events) = false) /\
             (queue (run (as_ops events) (dispatch ev s)) = [world] \/
              queue (run (as_ops events) (dispatch ev s)) = [])).
  { intros No.
    destruct (dispatch_other ev s No) as (A & B & C).
    destruct (IH (dispatch ev s) Hne) as (I1 & I2 & I3 & I4); auto.
    { now rewrite (handlers_of_same _ _ _ A). }
    { now rewrite B. }
    rewrite I1, I2, !C. rewrite B in I3. auto. }
  destruct ev as [id|id|id code|id|id|catalog];
    try (simpl (reports _ _); simpl (false || _);
         apply Other; intros; reflexivity).
  - simpl in Held.
    destruct (held_in_singleton id world s Hq Held) as [-> Q].
    simpl. rewrite Nat.eqb_refl. simpl.
    destruct (Report world OnEnd (mkResult true None) Held eq_refl)
      as (R1 & R2 & R3 & R4); auto.
    + cbv [dispatch]. now rewrite Hh.
    + simpl. apply Nat.eqb_refl.
    + repeat split; auto. intros Q'. exfalso. auto.
  - simpl in Held.
    destruct (held_in_singleton id world s Hq Held) as [-> Q].
    simpl. rewrite Nat.eqb_refl. simpl.
    destruct (Report world
                (OnError ("Speech synthesis error: " ++ code)%string)
                (mkResult false
                   (Some ("Speech synthesis error: " ++ code)%string))
                Held eq_refl)
      as (R1 & R2 & R3 & R4); auto.
    + cbv [dispatch]. now rewrite Hh.
    + simpl. apply Nat.eqb_refl.
    + repeat split; auto. intros Q'. exfalso. auto.
Qed.

Lemma find_fresh_handler id cbs l :
  (forall p, In p l -> fst p < id) ->
  find (fun p : nat * Callbacks => Nat.eqb (fst p) id) (l ++ [(id, cbs)]) =
  Some (id, cbs).
Proof.
  induction l as [|a l IH]; intros H; simpl.
  - now rewrite Nat.eqb_refl.
  - assert (fst a < id) by (apply H; now left).
    destruct (Nat.eqb_spec (fst a) id); [lia|].
    apply IH. intros p Hp. apply H. now right.
Qed.

Lemma no_completions_yet id s :
  (forall p, In p (fired s) -> fst p < id) -> completions id s = 0.
Proof.
  unfold completions. intros H.
  induction (fired s) as [|a l IH]; simpl; [reflexivity|].
  assert (fst a < id) by (apply H; now left).
  unfold is_completion at 1.
  destruct (Nat.eqb_spec (fst a) id); [lia|]. simpl.
  apply IH. intros p Hp. apply H. now right.
Qed.

(** C6, the claim as stated, fails.  The handlers of a superseded utterance
    stay installed: when the platform reports the cancellation to "hello"
    (error code [interrupted]), the [onError] of "hello" fires; that handler
    also clears [currentUtterance], so the next [speak] cancels nothing and
    the engine holds two utterances.  On an adapter without the platform
    capability every [speak] fires its own [onError], the one of "hello"
    included. *)
Lemma superseded_utterance_can_fire :
  ~ superseded_is_silent "hello" "world"
      [EvError 0 "interrupted"; EvEnd 1] (initialize (Some [zira])) /\
  completions 0
    (round_trip "hello" "world" all_callbacks all_callbacks
       [EvError 0 "interrupted"; EvEnd 1] (initialize (Some [zira]))) = 1 /\
  in_flight
    (speak "again" no_options all_callbacks None
       (round_trip "hello" "world" all_callbacks all_callbacks
          [EvError 0 "interrupted"] (initialize (Some [zira])))) = 2 /\
  ~ superseded_is_silent "hello" "world" [] (initialize None).
Proof.
  split; [|split; [|split]].
  - intros [H _]. vm_compute in H. discriminate.
  - vm_compute. reflexivity.
  - vm_compute. reflexivity.
  - intros [H _]. vm_compute in H. discriminate.
Qed.

(** C6, amended: on an adapter that found the platform capability, as long
    as the platform reports the end or the failure of an utterance only
    while it holds that utterance (it stays silent about cancelled ones),
    at most one utterance is in flight at any time; [speak] replaces
    whatever was in flight by the new utterance, and [speak(hello)] followed
    immediately by [speak(world)], both accepted by the engine, fires no
    [onEnd]/[onError] for "hello" and exactly one for "world" once the
    platform reports the end or the failure of "world" (none before). *)
Theorem speak_supersedes_on_quiet_platform :
  forall (catalog : list Voice) (ops : list Op) (hello world : string)
         (cbs1 : Callbacks) (events : list Event),
    let s0 := run ops (initialize (Some catalog)) in
    let s1 := speak hello no_options cbs1 None s0 in
    let s2 := speak world no_options all_callbacks None s1 in
    let s3 := round_trip hello world cbs1 all_callbacks events s0 in
    quiet_after_cancel ops (initialize (Some catalog)) = true ->
    quiet_after_cancel (as_ops events) s2 = true ->
    in_flight s0 <= 1 /\
    queue s1 = [nextId s0] /\
    queue s2 = [S (nextId s0)] /\
    (exists u, currentUtterance s2 = Some u /\ u_text u = world) /\
    in_flight s3 <= 1 /\
    completions (nextId s0) s3 = 0 /\
    completions (S (nextId s0)) s3 =
      (if existsb (reports (S (nextId s0))) (as_ops events) then 1 else 0).
Proof.
  intros catalog ops hello world cbs1 events s0 s1 s2 s3 Q0 Q2.
  assert (C0 : consistent s0)
    by (apply consistent_run; [apply consistent_initialize | exact Q0]).
  destruct (run_support ops (initialize (Some catalog))) as [Sup Syn].
  simpl in Sup, Syn. fold s0 in Sup, Syn.
  destruct (speak_accepted hello no_options cbs1 s0 Sup Syn)
    as (Q1 & (u1 & U1 & _) & H1 & F1 & N1 & Sup1 & Syn1).
  fold s1 in Q1, U1, H1, F1, N1, Sup1, Syn1.
  destruct (speak_accepted world no_options all_callbacks s1 Sup1 Syn1)
    as (Q2' & (u2 & U2 & _ & T2) & H2 & F2 & N2 & _).
  fold s2 in Q2', U2, H2, F2, N2.
  rewrite U1, N1 in Q2'. simpl in Q2'.
  destruct C0 as (Hq & (Hf & Hh & Hn) & Hs).
  assert (Q1' : queue s1 = [nextId s0]).
  { rewrite Q1. destruct Hq as [E|(u & Hu & E)].
    - rewrite E. now destruct (currentUtterance s0).
    - now rewrite Hu. }
  assert (Hw : handlers_of (S (nextId s0)) s2 = Some all_callbacks).
  { unfold handlers_of. rewrite H2, N1, find_fresh_handler; [reflexivity|].
    rewrite H1. intros p Hp. apply in_app_or in Hp as [Hp|[<-|[]]].
    - apply Hh in Hp. lia.
    - simpl. lia. }
  assert (Z1 : completions (nextId s0) s2 = 0).
  { apply no_completions_yet. rewrite F2, F1. exact Hf. }
  assert (Z2 : completions (S (nextId s0)) s2 = 0).
  { apply no_completions_yet. rewrite F2, F1.
    intros p Hp. apply Hf in Hp. lia. }
  destruct (events_while_awaiting (nextId s0) (S (nextId s0)) events s2)
    as (E1 & E2 & _ & E4); auto.
  change (run (as_ops events) s2) with s3 in E1, E2, E4.
  rewrite Z1 in E1. rewrite Z2 in E2.
  split; [now apply consistent_in_flight; repeat split|].
  split; [exact Q1'|]. split; [exact Q2'|].
  split; [now exists u2|].
  split; [|split; assumption].
  unfold in_flight. destruct E4 as [E|E]; rewrite E; simpl; lia.
Qed.

(** The round trip on a fresh adapter, the platform starting and ending
    "world". *)
Lemma speak_supersedes_on_quiet_platform_witness :
  completions 0
    (round_trip "hello" "world" all_callbacks all_callbacks
       [EvStart 1; EvEnd 1] (initialize (Some [zira]))) = 0 /\
  completions 1
    (round_trip "hello" "world" all_callbacks all_callbacks
       [EvStart 1; EvEnd 1] (initialize (Some [zira]))) = 1.
Proof.
  pose proof (speak_supersedes_on_quiet_platform
                [zira] [] "hello" "world" all_callbacks [EvStart 1; EvEnd 1]
                eq_refl eq_refl) as H.
  split; apply H.
Defined.

Lemma calls_numbered_initialize platform :
  calls_numbered (initialize platform).
Proof. destruct platform; split; simpl; intros ? []. Qed.

Lemma calls_numbered_step op s :
  calls_numbered s -> calls_numbered (step op s).
Proof.
  unfold calls_numbered. intros (Hs & Hh).
  destruct op as [text options [? ? onerr] thr| | | |ev].
  - destruct onerr, thr; open_state s; split_ifs;
      split; intros; use_bounds.
  - open_state s; split; intros; use_bounds.
  - open_state s; split; intros; use_bounds.
  - open_state s; split; intros; use_bounds.
  - destruct ev as [id|id|id code|id|id|catalog]; cbv [step dispatch];
      try (split; assumption).
    + destruct (handlers_of id s) as [[[|] ? ?]|]; try (split; assumption);
        destruct s; eval_state; split; assumption.
    + destruct (handlers_of id s) as [[? [|] ?]|] eqn:E;
        try (split; assumption);
        (assert (B : id < nextId s)
           by (unfold handlers_of in E;
               destruct (find _ (handlers s)) as [p|] eqn:F; [|discriminate];
               apply find_some in F as [F1 F2]; apply Nat.eqb_eq in F2;
               subst id; now apply Hh));
        destruct s; eval_state; split_ifs; split; intros; use_bounds.
    + destruct (handlers_of id s) as [[? ? [|]]|] eqn:E;
        try (split; assumption);
        (assert (B : id < nextId s)
           by (unfold handlers_of in E;
               destruct (find _ (handlers s)) as [p|] eqn:F; [|discriminate];
               apply find_some in F as [F1 F2]; apply Nat.eqb_eq in F2;
               subst id; now apply Hh));
        destruct s; eval_state; split_ifs; split; intros; use_bounds.
    + destruct s as [[|] ? ? ? ? ? ? ? ? ?]; eval_state; split; assumption.
Qed.

Lemma calls_numbered_run ops : forall s,
  calls_numbered s -> calls_numbered (run ops s).
Proof.
  induction ops as [|op ops IH]; intros s H; simpl; [assumption|].
  apply IH. now apply calls_numbered_step.
Qed.

Lemma fresh_unsettled s :
  calls_numbered s -> is_settled (nextId s) s = false.
Proof.
  intros (Hs & _). unfold is_settled.
  induction (settled s) as [|a l IH]; simpl; [reflexivity|].
  assert (fst a < nextId s) by (apply Hs; now left).
  destruct (Nat.eqb_spec (fst a) (nextId s)); [lia|]. simpl.
  apply IH. intros p Hp. apply Hs. now right.
Qed.

Lemma result_of_snoc id r l s :
  is_settled id s = false -> settled s = l ->
  match find (fun p : nat * SpeechResult => Nat.eqb (fst p) id) (l ++ [(id, r)])
  with Some p => Some (snd p) | None => None end = Some r.
Proof.
  unfold is_settled. intros H <-.
  induction (settled s) as [|a t IH]; simpl in *.
  - now rewrite Nat.eqb_refl.
  - apply orb_false_iff in H as [H1 H2]. rewrite H1. now apply IH.
Qed.

(** What an adapter constructed without the platform capability keeps. *)
Lemma without_platform_run ops : forall s,
  isSupported s = false /\ synthesis s = false /\ queue s = [] /\
  currentUtterance s = None /\ voices s = [] /\ handlers s = [] ->
  isSupported (run ops s) = false /\ synthesis (run ops s) = false /\
  queue (run ops s) = [] /\ currentUtterance (run ops s) = None /\
  voices (run ops s) = [] /\ handlers (run ops s) = [].
Proof.
  induction ops as [|op ops IH]; intros s H; simpl; [assumption|].
  apply IH. destruct H as (A & B & C & D & E & F).
  destruct s as [syn vs sup cur q ? hs ? ? ?]. simpl in *. subst.
  destruct op as [text options [? ? onerr] thr| | | |ev];
    try destruct ev; try destruct onerr; eval_state; split_ifs;
    repeat split.
Qed.

(** X5: on an adapter constructed without the platform capability, and
    whatever was called or dispatched before, [speak] settles its promise
    at once with the failure "Speech synthesis not supported in this
    browser", invokes [onError] with that message if it was passed and no
    other callback, and hands nothing to an engine; the adapter never
    becomes supported and never loads a voice. *)
Theorem speak_without_platform :
  forall (ops : list Op) (text : string) (options : SpeechOptions)
         (cbs : Callbacks) (engine_throws : option string),
    let s := run ops (initialize None) in
    let s' := speak text options cbs engine_throws s in
    result_of (nextId s) s' =
      Some (mkResult false (Some unsupported_message)) /\
    fired s' =
      fired s ++
      (if has_onError cbs then [(nextId s, OnError unsupported_message)]
       else []) /\
    in_flight s' = 0 /\
    currentUtterance s' = None /\
    isSupported s' = false /\
    voices s' = [].
Proof.
  intros ops text options cbs thr s s'.
  destruct (without_platform_run ops (initialize None))
    as (A & B & C & D & E & F); [repeat split|].
  pose proof (fresh_unsettled s
                (calls_numbered_run ops _ (calls_numbered_initialize None)))
    as U.
  fold s in A, B, C, D, E, F. subst s'.
  pose proof (result_of_snoc (nextId s)
                (mkResult false (Some unsupported_message))
                (settled s) s U eq_refl) as R.
  unfold result_of. revert U R.
  destruct cbs as [? ? onerr].
  destruct s as [syn vs sup cur q ? hs n f st]. simpl in *. subst.
  intros U R. destruct onerr; eval_state; rewrite U;
    cbv [settled]; rewrite R; rewrite ?app_nil_r; repeat split.
Qed.

(** [speak] in terms of the steps it is made of. *)
Lemma speak_unsupported_eq text options cbs thr s :
  isSupported s = false \/ synthesis s = false ->
  speak text options cbs thr s =
  resolve (nextId s) (mkResult false (Some unsupported_message))
    (fire (has_onError cbs) (nextId s) (OnError unsupported_message) (bump s)).
Proof.
  intros H. unfold speak. cbv zeta.
  change (isSupported (bump s)) with (isSupported s).
  change (synthesis (bump s)) with (synthesis s).
  destruct H as [-> | ->]; [reflexivity|].
  now rewrite orb_true_r.
Qed.

Lemma speak_supported_eq text options cbs thr s :
  isSupported s = true -> synthesis s = true ->
  speak text options cbs thr s =
  match thr with
  | None =>
      set_queue (queue (prepared text options cbs s) ++ [nextId s])
                (prepared text options cbs s)
  | Some e =>
      resolve (nextId s)
        (mkResult false (Some ("Failed to start speech: " ++ e)%string))
        (fire (has_onError cbs) (nextId s)
           (OnError ("Failed to start speech: " ++ e)%string)
           (prepared text options cbs s))
  end.
Proof.
  intros A B. unfold speak, prepared. cbv zeta.
  change (isSupported (bump s)) with (isSupported s).
  change (synthesis (bump s)) with (synthesis s).
  rewrite A, B. reflexivity.
Qed.

Lemma prepared_fields text options cbs s :
  synthesis s = true ->
  fired (prepared text options cbs s) = fired s /\
  settled (prepared text options cbs s) = settled s /\
  nextId (prepared text options cbs s) = S (nextId s) /\
  handlers (prepared text options cbs s) = handlers s ++ [(nextId s, cbs)] /\
  queue (prepared text options cbs s) =
    (match currentUtterance s with Some _ => [] | None => queue s end) /\
  exists u, currentUtterance (prepared text options cbs s) = Some u /\
            u_id u = nextId s /\ u_text u = text.
Proof.
  intros B. destruct s as [syn ? ? cur ? ? ? ? ? ?]. simpl in B. subst.
  unfold prepared. destruct cur; eval_state; repeat split; eauto.
Qed.

Lemma fire_rest present id c s :
  nextId (fire present id c s) = nextId s /\
  settled (fire present id c s) = settled s /\
  currentUtterance (fire present id c s) = currentUtterance s /\
  fired (fire present id c s) =
    fired s ++ (if present then [(id, c)] else []).
Proof.
  unfold fire. destruct present; simpl; rewrite ?app_nil_r; auto.
Qed.

Lemma resolve_rest id r s :
  nextId (resolve id r s) = nextId s /\
  currentUtterance (resolve id r s) = currentUtterance s /\
  (is_settled id s = false -> result_of id (resolve id r s) = Some r).
Proof.
  unfold resolve. destruct (is_settled id s) eqn:E; simpl;
    repeat split; auto; try discriminate.
  intros _. unfold result_of. simpl.
  now apply (result_of_snoc id r (settled s) s).
Qed.

Lemma is_settled_same id s s' :
  settled s' = settled s -> is_settled id s' = is_settled id s.
Proof. unfold is_settled. now intros ->. Qed.

Lemma unsettled_result id s :
  is_settled id s = false -> result_of id s = None.
Proof.
  unfold is_settled, result_of.
  induction (settled s) as [|a l IH]; simpl; [reflexivity|].
  intros H. apply orb_false_iff in H as [H1 H2]. rewrite H1. now apply IH.
Qed.

(** The facts about a state reached on a supporting platform that reports
    only what it holds. *)
Lemma reached_facts catalog ops :
  quiet_after_cancel ops (initialize (Some catalog)) = true ->
  let s := run ops (initialize (Some catalog)) in
  consistent s /\ isSupported s = true /\ synthesis s = true /\
  is_settled (nextId s) s = false.
Proof.
  intros Q s.
  destruct (run_support ops (initialize (Some catalog))) as [A B].
  split; [|split; [exact A|split; [exact B|]]].
  - apply consistent_run; [apply consistent_initialize | exact Q].
  - apply fresh_unsettled, calls_numbered_run, calls_numbered_initialize.
Qed.

Lemma prepared_queue_empty text options cbs s :
  consistent s -> synthesis s = true ->
  queue (prepared text options cbs s) = [].
Proof.
  intros (Hq & _) B.
  destruct (prepared_fields text options cbs s B) as (_ & _ & _ & _ & Q & _).
  rewrite Q. destruct Hq as [E|(u & Hu & E)].
  - rewrite E. now destruct (currentUtterance s).
  - now rewrite Hu.
Qed.

(** X6: when the engine refuses an utterance ([synthesis.speak] throws),
    the promise is settled with "Failed to start speech: " and the
    exception, [onError] is invoked once with that message if it was
    passed, and nothing is in flight, the previous utterance having been
    cancelled; the refused utterance nevertheless stays recorded as the
    current one. *)
Theorem speak_refused_by_engine :
  forall (catalog : list Voice) (ops : list Op) (text : string)
         (options : SpeechOptions) (cbs : Callbacks) (e : string),
    quiet_after_cancel ops (initialize (Some catalog)) = true ->
    let s := run ops (initialize (Some catalog)) in
    let s' := speak text options cbs (Some e) s in
    result_of (nextId s) s' =
      Some (mkResult false (Some ("Failed to start speech: " ++ e)%string)) /\
    fired s' =
      fired s ++
      (if has_onError cbs
       then [(nextId s, OnError ("Failed to start speech: " ++ e)%string)]
       else []) /\
    in_flight s' = 0 /\
    exists u, currentUtterance s' = Some u /\ u_id u = nextId s /\
              u_text u = text.
Proof.
  intros catalog ops text options cbs e Q s s'.
  destruct (reached_facts catalog ops Q) as (C & A & B & U).
  fold s in C, A, B, U. subst s'.
  rewrite (speak_supported_eq text options cbs (Some e) s A B).
  destruct (prepared_fields text options cbs s B)
    as (F & St & N & H & _ & Cu).
  set (p := prepared text options cbs s) in *.
  set (m := ("Failed to start speech: " ++ e)%string).
  destruct (fire_rest (has_onError cbs) (nextId s) (OnError m) p)
    as (F1 & F2 & F3 & F4).
  destruct (fire_same (has_onError cbs) (nextId s) (OnError m) p)
    as (_ & F5).
  set (f := fire (has_onError cbs) (nextId s) (OnError m) p) in *.
  destruct (resolve_rest (nextId s) (mkResult false (Some m)) f)
    as (R1 & R2 & R3).
  destruct (resolve_same (nextId s) (mkResult false (Some m)) f)
    as (_ & R4 & R5).
  split.
  { apply R3. rewrite (is_settled_same _ s f); [exact U|congruence]. }
  split; [rewrite R5, F4, F; reflexivity|].
  split.
  { unfold in_flight. rewrite R4, F5. subst p.
    now rewrite prepared_queue_empty. }
  rewrite R2, F3. exact Cu.
Qed.

Lemma speak_refused_by_engine_witness :
  result_of 0
    (speak "hello" no_options all_callbacks (Some "not allowed")
           (initialize (Some [zira]))) =
  Some (mkResult false (Some "Failed to start speech: not allowed")).
Proof.
  apply (speak_refused_by_engine [zira] [] "hello" no_options all_callbacks
           "not allowed" eq_refl).
Defined.



Lemma stop_fields s :
  synthesis s = true ->
  queue (stop s) =
    (match currentUtterance s with Some _ => [] | None => queue s end) /\
  currentUtterance (stop s) = None /\
  fired (stop s) = fired s /\ settled (stop s) = settled s /\
  handlers (stop s) = handlers s /\ nextId (stop s) = nextId s.
Proof.
  intros B. destruct s as [syn ? ? cur ? ? ? ? ? ?]. simpl in B. subst.
  destruct cur; eval_state; repeat split.
Qed.

Lemma dispatch_other_settled ev s :
  (forall id, reports id (OpEvent ev) = false) ->
  settled (dispatch ev s) = settled s.
Proof.
  intros H.
  destruct ev as [id|id|id code|id|id|catalog]; cbv [dispatch]; auto.
  - destruct (handlers_of id s) as [cbs|]; auto.
    apply (fire_rest (has_onStart cbs) id OnStart s).
  - specialize (H id). simpl in H. now rewrite Nat.eqb_refl in H.
  - specialize (H id). simpl in H. now rewrite Nat.eqb_refl in H.
  - unfold loadVoices. destruct (synthesis s); auto.
Qed.

(** Events arriving while the engine holds nothing. *)
Lemma events_on_idle events : forall s,
  queue s = [] ->
  quiet_after_cancel (as_ops events) s = true ->
  settled (run (as_ops events) s) = settled s /\
  (forall j, completions j (run (as_ops events) s) = completions j s) /\
  queue (run (as_ops events) s) = [].
Proof.
  induction events as [|ev events IH]; intros s Q H; simpl in *; [auto|].
  apply andb_true_iff in H as [Held Quiet].
  assert (No : forall id, reports id (OpEvent ev) = false).
  { destruct ev; try reflexivity; simpl in Held; rewrite Q in Held;
      discriminate. }
  destruct (dispatch_other ev s No) as (_ & B & C).
  pose proof (dispatch_other_settled ev s No) as D.
  destruct (IH (dispatch ev s)) as (I1 & I2 & I3); auto; [congruence|].
  split; [congruence|]. split; [|exact I3].
  intros j. now rewrite I2, C.
Qed.

(** X8: [stop] cancels without a word.  On an adapter that found the
    platform capability, in a state reached while the platform reported the
    end or the failure of an utterance only while it held that utterance:
    after an accepted [speak], [stop] empties the engine and the current
    slot but invokes no callback and does not settle the promise, and a
    second [stop] changes nothing.  As long as the platform keeps to that
    rule afterwards (its engine being empty, it reports no end and no
    failure at all, whatever else it reports), the promise of that [speak]
    stays pending and its [onEnd]/[onError] are not invoked. *)
Theorem stop_leaves_promise_pending :
  forall (catalog : list Voice) (ops : list Op) (text : string)
         (options : SpeechOptions) (cbs : Callbacks) (events : list Event),
    quiet_after_cancel ops (initialize (Some catalog)) = true ->
    let s := run ops (initialize (Some catalog)) in
    let s2 := stop (speak text options cbs None s) in
    quiet_after_cancel (as_ops events) s2 = true ->
    let s3 := run (as_ops events) s2 in
    in_flight s2 = 0 /\
    currentUtterance s2 = None /\
    fired s2 = fired s /\
    stop s2 = s2 /\
    result_of (nextId s) s3 = None /\
    completions (nextId s) s3 = 0.
Proof.
  intros catalog ops text options cbs events Q s s2 Q2 s3.
  destruct (reached_facts catalog ops Q) as (C & A & B & U).
  fold s in C, A, B, U.
  destruct (speak_accepted text options cbs s A B)
    as (_ & (u & Cu & _) & _ & F1 & _ & _ & B1).
  pose proof (speak_supported_eq text options cbs None s A B) as E.
  destruct (prepared_fields text options cbs s B) as (_ & St & _).
  assert (S1 : settled (speak text options cbs None s) = settled s)
    by (rewrite E; exact St).
  destruct (stop_fields (speak text options cbs None s) B1)
    as (K1 & K2 & K3 & K4 & _).
  fold s2 in K1, K2, K3, K4.
  rewrite Cu in K1.
  destruct (events_on_idle events s2 K1 Q2) as (I1 & I2 & I3).
  fold s3 in I1, I2, I3.
  split; [unfold in_flight; now rewrite K1|].
  split; [exact K2|]. split; [congruence|].
  split.
  { unfold stop. rewrite K2. now destruct (synthesis s2). }
  split.
  - apply unsettled_result.
    rewrite (is_settled_same _ s s3); [exact U|congruence].
  - rewrite I2. apply no_completions_yet. rewrite K3, F1. apply C.
Qed.

Lemma stop_leaves_promise_pending_witness :
  result_of 0
    (run (as_ops [EvStart 0; EvPause 0])
         (stop (speak "hello" no_options all_callbacks None
                      (initialize (Some [zira]))))) = None.
Proof.
  apply (stop_leaves_promise_pending [zira] [] "hello" no_options
           all_callbacks [EvStart 0; EvPause 0] eq_refl eq_refl).
Defined.

Lemma completes_once_fire id present c r base s :
  (forall j, completions j base = completions j s) ->
  completions id s = 0 ->
  completes_once s ->
  (forall j, In j (queue base) -> In j (queue s) /\ j <> id) ->
  completes_once (resolve id r (fire present id c base)).
Proof.
  intros Same Zero Once Sub j.
  rewrite completions_resolve, completions_fire, Same.
  destruct (resolve_same id r (fire present id c base)) as (_ & Q1 & _).
  destruct (fire_same present id c base) as (_ & Q2).
  rewrite Q1, Q2.
  destruct (Once j) as [O1 O2].
  unfold is_completion. simpl.
  destruct (Nat.eqb_spec id j) as [<-|Ne].
  - split.
    + rewrite Zero. destruct (present && _); simpl; lia.
    + intros I. apply Sub in I. now destruct I.
  - rewrite andb_false_r. split; [lia|].
    intros I. apply Sub in I as [I _]. rewrite (O2 I). lia.
Qed.

Lemma completes_once_same s s' :
  (forall j, completions j s' = completions j s) ->
  (forall j, In j (queue s') ->
             In j (queue s) \/ completions j s = 0) ->
  completes_once s -> completes_once s'.
Proof.
  intros Same Sub Once j. rewrite Same. destruct (Once j) as [O1 O2].
  split; [exact O1|]. intros I. destruct (Sub j I); auto.
Qed.

Lemma fresh_call s :
  consistent s ->
  completions (nextId s) s = 0 /\
  (forall j, In j (queue s) -> j <> nextId s).
Proof.
  intros (_ & (Hf & _ & Hn) & _). split.
  - now apply no_completions_yet.
  - intros j I. apply Hn in I. lia.
Qed.

Lemma completes_once_step op s :
  consistent s -> completes_once s -> reports_held op s = true ->
  completes_once (step op s).
Proof.
  intros C Once Held.
  destruct (fresh_call s C) as [Zero Fresh].
  destruct op as [text options cbs thr| | | |ev]; cbv [step].
  - destruct (isSupported s) eqn:A; [destruct (synthesis s) eqn:B|].
    + rewrite (speak_supported_eq text options cbs thr s A B).
      destruct (prepared_fields text options cbs s B) as (F & _).
      pose proof (prepared_queue_empty text options cbs s C B) as Pq.
      assert (Same : forall j, completions j (prepared text options cbs s)
                               = completions j s)
        by (intros j; unfold completions; now rewrite F).
      destruct thr as [e|].
      * apply (completes_once_fire _ _ _ _ _ s); auto.
        intros j I. rewrite Pq in I. destruct I.
      * rewrite Pq. apply (completes_once_same s); auto.
        intros j I. change (In j [nextId s]) in I.
        destruct I as [<-|[]]. now right.
    + rewrite (speak_unsupported_eq text options cbs thr s (or_intror B)).
      apply (completes_once_fire _ _ _ _ _ s); auto;
        try (intros j I; split; [exact I | now apply Fresh]).
    + rewrite (speak_unsupported_eq text options cbs thr s (or_introl A)).
      apply (completes_once_fire _ _ _ _ _ s); auto;
        try (intros j I; split; [exact I | now apply Fresh]).
  - apply (completes_once_same s); [| |exact Once]; intros j; unfold stop;
      destruct (synthesis s), (currentUtterance s); simpl; auto; intros [].
  - apply (completes_once_same s); [| |exact Once]; intros j; unfold pause;
      destruct (synthesis s), (currentUtterance s); simpl; auto.
  - apply (completes_once_same s); [| |exact Once]; intros j; unfold resume;
      destruct (synthesis s), (currentUtterance s); simpl; auto.
  - assert (Other : (forall id, reports id (OpEvent ev) = false) ->
                    completes_once (dispatch ev s)).
    { intros No. destruct (dispatch_other ev s No) as (_ & Q & Cs).
      apply (completes_once_same s); [exact Cs| |exact Once].
      intros j I. left. congruence. }
    assert (Report : forall id present c r,
               existsb (Nat.eqb id) (queue s) = true ->
               completes_once
                 (resolve id r
                    (fire present id c
                       (set_current None (leave_queue id s))))).
    { intros id present c r H.
      destruct C as (Hq & _).
      destruct (held_is_current id s Hq H) as [Q E].
      apply (completes_once_fire _ _ _ _ _ s); auto.
      - apply Once. rewrite Q. now left.
      - intros j I. simpl in I. rewrite E in I. destruct I. }
    destruct ev as [id|id|id code|id|id|catalog];
      try (apply Other; intros; reflexivity); simpl in Held; cbv [dispatch];
      (destruct (handlers_of id s) as [cbs|]; [|exact Once]);
      now apply Report.
Qed.

Lemma completes_once_run ops : forall s,
  consistent s -> completes_once s -> quiet_after_cancel ops s = true ->
  completes_once (run ops s).
Proof.
  induction ops as [|op ops IH]; intros s C O Q; simpl in *; [assumption|].
  apply andb_true_iff in Q as [Q1 Q2].
  apply IH; auto.
  - now apply consistent_step.
  - now apply completes_once_step.
Qed.

(** X9: as long as the platform reports the end or the failure of an
    utterance only while it holds it, no [speak] call ever gets more than
    one [onEnd]/[onError] invocation, whether the adapter found the platform
    capability or not and whether the engine accepted the utterance or not;
    and a call whose utterance is still held by the engine has had none. *)
Theorem at_most_one_completion_per_call :
  forall (platform : option (list Voice)) (ops : list Op) (id : nat),
    quiet_after_cancel ops (initialize platform) = true ->
    completions id (run ops (initialize platform)) <= 1 /\
    (In id (queue (run ops (initialize platform))) ->
     completions id (run ops (initialize platform)) = 0).
Proof.
  intros platform ops id Q.
  apply completes_once_run; auto.
  - apply consistent_initialize.
  - intros j. destruct platform; simpl; split; auto.
Qed.

Lemma at_most_one_completion_per_call_witness :
  completions 0
    (run [OpSpeak "hello" no_options all_callbacks (Some "not allowed");
          OpSpeak "world" no_options all_callbacks None;
          OpEvent (EvEnd 1); OpStop]
         (initialize (Some [zira]))) <= 1.
Proof.
  apply (at_most_one_completion_per_call (Some [zira])
           [OpSpeak "hello" no_options all_callbacks (Some "not allowed");
            OpSpeak "world" no_options all_callbacks None;
            OpEvent (EvEnd 1); OpStop] 0 eq_refl).
Defined.

Lemma stop_bump_voices s : voices (stop (bump s)) = voices s.
Proof.
  destruct s as [[|] ? ? [?|] ? ? ? ? ? ?]; reflexivity.
Qed.

(** X10: the catalog follows the platform.  On an adapter that found the
    platform capability, whatever was called or dispatched before, a
    [voiceschanged] event replaces the catalog without touching the
    utterance in flight, and the next [speak] builds its utterance from the
    new catalog: rate 0.9, pitch 1 and volume 1 unless given, language
    "en-US" unless given, and as voice the one given or else the preferred
    voice of the new catalog for the language of the utterance. *)
Theorem speak_uses_latest_catalog :
  forall (catalog0 catalog : list Voice) (ops : list Op) (text : string)
         (options : SpeechOptions) (cbs : Callbacks),
    let s := run ops (initialize (Some catalog0)) in
    let s1 := dispatch (EvVoicesChanged catalog) s in
    let s2 := speak text options cbs None s1 in
    let l := match opt_lang options with Some l => l | None => "en-US" end in
    voices s1 = catalog /\
    queue s1 = queue s /\
    currentUtterance s1 = currentUtterance s /\
    exists u,
      currentUtterance s2 = Some u /\
      u_text u = text /\
      u_lang u = l /\
      u_rate u = match opt_rate options with Some r => r | None => (9 # 10)%Q end /\
      u_pitch u = match opt_pitch options with Some r => r | None => 1%Q end /\
      u_volume u = match opt_volume options with Some r => r | None => 1%Q end /\
      u_voice u = match opt_voice options with
                  | Some v => Some v
                  | None => getPreferredVoice catalog l
                  end.
Proof.
  intros catalog0 catalog ops text options cbs s s1 s2 l.
  destruct (run_support ops (initialize (Some catalog0))) as [A B].
  fold s in A, B.
  change (isSupported s = true) in A. change (synthesis s = true) in B.
  assert (E1 : s1 = set_voices catalog s)
    by (subst s1; cbv [dispatch loadVoices]; now rewrite B).
  assert (V : voices s1 = catalog) by (rewrite E1; reflexivity).
  split; [exact V|].
  split; [rewrite E1; reflexivity|]. split; [rewrite E1; reflexivity|].
  assert (A1 : isSupported s1 = true) by (rewrite E1; exact A).
  assert (B1 : synthesis s1 = true) by (rewrite E1; exact B).
  exists (make_utterance (nextId s1) text options (stop (bump s1))).
  split.
  { subst s2. rewrite (speak_supported_eq text options cbs None s1 A1 B1).
    reflexivity. }
  unfold make_utterance. simpl. rewrite stop_bump_voices, V.
  repeat split.
Qed.

Lemma speak_uses_latest_catalog_witness :
  exists u,
    currentUtterance
      (speak "hello" no_options all_callbacks None
         (dispatch (EvVoicesChanged [generic_gb; zira])
                   (initialize (Some [])))) = Some u /\
    u_voice u = Some zira.
Proof.
  destruct (speak_uses_latest_catalog [] [generic_gb; zira] [] "hello"
              no_options all_callbacks)
    as (_ & _ & _ & u & A & _ & _ & _ & _ & _ & V).
  exists u. split; [exact A | exact V].
Defined.

(** X21: the status snapshot names a preferred voice exactly when the
    catalog is not empty, and the name is that of a voice of the catalog;
    on an adapter constructed without the platform capability the snapshot
    is, whatever was called or dispatched before, unsupported, silent, not
    paused, without voices and without preferred voice. *)
Theorem getStatus_snapshot :
  forall (s : State) (ops : list Op),
    (preferredVoice (getStatus s) = None <-> voicesCount (getStatus s) = 0) /\
    (forall n, preferredVoice (getStatus s) = Some n ->
               exists v, In v (voices s) /\ name v = n) /\
    getStatus (run ops (initialize None)) = mkStatus false false false 0 None.
Proof.
  intros s ops. split; [|split].
  - unfold getStatus. simpl.
    destruct (getPreferredVoice (voices s) "en-US") as [v|] eqn:E.
    + split; [discriminate|]. intros L.
      apply length_zero_iff_nil in L.
      apply (preferred_none (voices s) "en-US") in L.
      congruence.
    + split; [|reflexivity]. intros _.
      apply preferred_none in E. now rewrite E.
  - unfold getStatus. simpl. intros n.
    destruct (getPreferredVoice (voices s) "en-US") as [v|] eqn:E;
      [|discriminate].
    intros [= <-]. exists v. split; [|reflexivity].
    revert E. apply preferred_member.
  - destruct (without_platform_run ops (initialize None))
      as (A & B & C & D & E & F); [repeat split|].
    unfold getStatus, isSpeaking, isPaused. now rewrite A, B, E.
Qed.

Lemma getStatus_snapshot_witness :
  exists v, In v [generic_gb; zira] /\ name v = "Microsoft Zira".
Proof.
  apply (proj1 (proj2 (getStatus_snapshot
                         (initialize (Some [generic_gb; zira])) []))
               "Microsoft Zira").
  reflexivity.
Defined.

End Utterances.

(** ** The session handlers *)
Section Session.

Import Coordinator.

(** Runs a handler on a world whose fields are variables. *)
Ltac eval_handler :=
  cbv [exec completes pauses
       startVoiceInterview pauseInterview resumeInterview endInterview
       submitVoiceResponse toggleMicrophone
       bind ret get try_catch detached call record with_hooks modify_comp
       keep console_error svc_startVoiceInterview svc_processVoiceResponse
       stopListening startListening resetTranscript stopAudio startAudio
       connectLiveKit disconnectLiveKit
       setIsInterviewActive setCurrentQuestion setStartTime setIsThinking
       setVoiceSession setConnectionStatus
       comp hooks tts trace
       isInterviewActive currentQuestion startTime elapsedTime isThinking
       voiceSession connectionStatus audioLevel participantName
       isListening transcript localAudioTrack transportConnected
       isComplete nextQuestion fst snd] in *.

Ltac open_world w :=
  destruct w as [[w_active w_question w_started w_elapsed w_thinking
                  w_session w_status w_level w_participant]
                 [w_listening w_text w_track w_transport] w_speech w_calls].

Lemma ended_after calls more :
  existsb is_OnEndInterview more = false ->
  existsb is_OnEndInterview (calls ++ more) = existsb is_OnEndInterview calls.
Proof. intros H. now rewrite existsb_app, H, orb_false_r. Qed.

Lemma truthy_nonempty s : s <> "" -> JS.truthy s = true.
Proof. destruct s; simpl; congruence. Qed.

(** C9: submitting a response while the transcript is empty (and the
    platform's [trim] of the empty string is the empty string) or holds only
    white space (the platform's [trim] leaves nothing of it), or while there
    is no session handle, does nothing: the handler returns normally and the
    world, the trace of calls included, is as before (no remote call, same
    session state, same transcript). *)
Theorem submitVoiceResponse_without_input :
  forall (env : Env) (w : World),
    (transcript (hooks w) = "" /\ trim env "" = "") \/
    trim env (transcript (hooks w)) = "" \/
    voiceSession (comp w) = None ->
    submitVoiceResponse env w = (Returned tt, w) /\
    trace (exec (submitVoiceResponse env) w) = trace w /\
    sessionState (exec (submitVoiceResponse env) w) = sessionState w /\
    transcript (hooks (exec (submitVoiceResponse env) w)) =
      transcript (hooks w).
Proof.
  intros env w H.
  assert (E : submitVoiceResponse env w = (Returned tt, w)).
  { open_world w. simpl in H.
    cbv [submitVoiceResponse bind get hooks comp transcript voiceSession].
    destruct H as [[-> H]|[H| ->]].
    - rewrite H. reflexivity.
    - rewrite H. reflexivity.
    - destruct (JS.truthy _); reflexivity. }
  unfold exec. rewrite E. auto.
Qed.

(** A transcript of white space in the active interview: a no-break space
    and two spaces. *)
Lemma submitVoiceResponse_without_input_witness :
  submitVoiceResponse all_succeed
    (mkWorld (comp active_world)
             (mkHooks true (nbsp ++ "  ")%string true true)
             (tts active_world) (trace active_world)) =
  (Returned tt,
   mkWorld (comp active_world)
           (mkHooks true (nbsp ++ "  ")%string true true)
           (tts active_world) (trace active_world)).
Proof.
  apply (submitVoiceResponse_without_input all_succeed
           (mkWorld (comp active_world)
                    (mkHooks true (nbsp ++ "  ")%string true true)
                    (tts active_world) (trace active_world))).
  right. left. reflexivity.
Defined.

Ltac run_handler rewrites :=
  repeat progress (eval_handler; rewrites).

Lemma sessionState_frame c c' h h' t t' calls more :
  connectionStatus c' = connectionStatus c ->
  isInterviewActive c' = isInterviewActive c ->
  startTime c' = startTime c ->
  existsb is_OnEndInterview more = false ->
  sessionState (mkWorld c' h' t' (calls ++ more)) =
  sessionState (mkWorld c h t calls).
Proof.
  intros A B C D. unfold sessionState, ended. simpl.
  now rewrite (ended_after _ _ D), A, B, C.
Qed.

Ltac same_state := apply sessionState_frame; reflexivity.

(** C3: when the remote call of a submission rejects, the failure is logged,
    the interview is neither ended nor left (the session state, [Active] in
    particular, is as before), the transcript is not reset and the session
    handle and the question are kept, so the same words can be submitted
    again; the thinking flag is cleared.  A submission is a call that passes
    the guard of the handler: there is a session handle and the platform's
    [trim] leaves something of the transcript, which is the text sent. *)
Theorem submitVoiceResponse_rejected_keeps_transcript :
  forall (env : Env) (w : World) (session : VoiceSession),
    voiceSession (comp w) = Some session ->
    trim env (transcript (hooks w)) <> "" ->
    fails env StopListening = false ->
    process_result env = None ->
    let w' := exec (submitVoiceResponse env) w in
    completes (submitVoiceResponse env) w = true /\
    sessionState w' = sessionState w /\
    (sessionState w = Active -> sessionState w' = Active) /\
    isInterviewActive (comp w') = isInterviewActive (comp w) /\
    transcript (hooks w') = transcript (hooks w) /\
    voiceSession (comp w') = Some session /\
    currentQuestion (comp w') = currentQuestion (comp w) /\
    isThinking (comp w') = false /\
    trace w' =
      trace w ++
      [StopListening;
       SvcProcessVoiceResponse (sessionId session)
         (trim env (transcript (hooks w)))
         (audioLevel (comp w)) (elapsedTime (comp w)) confidence;
       ConsoleError "Error submitting voice response:"].
Proof.
  intros env w session Hs Ht Hstop Hp w'. subst w'.
  apply truthy_nonempty in Ht.
  open_world w. simpl in Hs, Ht. subst.
  run_handler ltac:(rewrite ?Ht, ?Hstop, ?Hp).
  rewrite <- !app_assoc. simpl.
  repeat split; auto; try same_state.
  intros A. rewrite <- A. same_state.
Qed.

Lemma submitVoiceResponse_rejected_keeps_transcript_witness :
  sessionState (exec (submitVoiceResponse process_rejects) active_world)
    = Active /\
  transcript (hooks (exec (submitVoiceResponse process_rejects) active_world))
    = "I have five years of experience".
Proof.
  pose proof (submitVoiceResponse_rejected_keeps_transcript
                process_rejects active_world sample_session
                eq_refl ltac:(discriminate) eq_refl eq_refl) as H.
  split.
  - apply H. reflexivity.
  - apply H.
Defined.

(** C8: a submission (a session handle exists and the platform's [trim]
    leaves something of the transcript) all of whose calls succeed and whose
    remote result is not complete and carries a next question sets the
    current question to that question's text, resets the transcript to the
    empty string and leaves the session state as it was, [Active] in
    particular. *)
Theorem submitVoiceResponse_next_question :
  forall (env : Env) (w : World) (session : VoiceSession) (question : string),
    voiceSession (comp w) = Some session ->
    trim env (transcript (hooks w)) <> "" ->
    fails env StopListening = false ->
    process_result env = Some (mkProcessResult false (Some question)) ->
    fails env (SimulatorSubmitResponse (trim env (transcript (hooks w))))
      = false ->
    fails env ResetTranscript = false ->
    let w' := exec (submitVoiceResponse env) w in
    completes (submitVoiceResponse env) w = true /\
    currentQuestion (comp w') = question /\
    transcript (hooks w') = "" /\
    sessionState w' = sessionState w /\
    (sessionState w = Active -> sessionState w' = Active) /\
    isInterviewActive (comp w') = isInterviewActive (comp w) /\
    isThinking (comp w') = false /\
    trace w' =
      trace w ++
      [StopListening;
       SvcProcessVoiceResponse (sessionId session)
         (trim env (transcript (hooks w)))
         (audioLevel (comp w)) (elapsedTime (comp w)) confidence;
       SimulatorSubmitResponse (trim env (transcript (hooks w)));
       ResetTranscript].
Proof.
  intros env w session question Hs Ht Hstop Hp Hsim Hreset w'. subst w'.
  apply truthy_nonempty in Ht.
  open_world w. simpl in Hs, Ht, Hsim. subst.
  run_handler ltac:(rewrite ?Ht, ?Hstop, ?Hp, ?Hsim, ?Hreset).
  rewrite <- !app_assoc. simpl.
  repeat split; auto; try same_state.
  intros A. rewrite <- A. same_state.
Qed.

(** The scenario of the specification: the answer "I have five years of
    experience" is followed by the question "Tell me about a challenge you
    faced." *)
Lemma submitVoiceResponse_next_question_witness :
  currentQuestion (comp (exec (submitVoiceResponse all_succeed) active_world))
    = "Tell me about a challenge you faced." /\
  transcript (hooks (exec (submitVoiceResponse all_succeed) active_world))
    = "" /\
  sessionState (exec (submitVoiceResponse all_succeed) active_world) = Active.
Proof.
  pose proof (submitVoiceResponse_next_question
                all_succeed active_world sample_session
                "Tell me about a challenge you faced."
                eq_refl ltac:(discriminate) eq_refl eq_refl eq_refl eq_refl)
    as H.
  split; [apply H|]. split; [apply H|].
  apply H. reflexivity.
Defined.

(** C10: when the remote result of a submission (a session handle exists
    and the platform's [trim] leaves something of the transcript) is not
    complete and carries no next question, the current question and the
    transcript are left as they were, no end-of-interview call is made and
    the session state, [Active] in particular, is as before; this whether or
    not the simulator accepts the response. *)
Theorem submitVoiceResponse_no_next_question :
  forall (env : Env) (w : World) (session : VoiceSession),
    voiceSession (comp w) = Some session ->
    trim env (transcript (hooks w)) <> "" ->
    fails env StopListening = false ->
    process_result env = Some (mkProcessResult false None) ->
    let w' := exec (submitVoiceResponse env) w in
    completes (submitVoiceResponse env) w = true /\
    currentQuestion (comp w') = currentQuestion (comp w) /\
    transcript (hooks w') = transcript (hooks w) /\
    sessionState w' = sessionState w /\
    (sessionState w = Active -> sessionState w' = Active) /\
    isInterviewActive (comp w') = isInterviewActive (comp w) /\
    ended w' = ended w /\
    count_call is_SvcEndInterview (trace w') =
      count_call is_SvcEndInterview (trace w) /\
    trace w' =
      trace w ++
      [StopListening;
       SvcProcessVoiceResponse (sessionId session)
         (trim env (transcript (hooks w)))
         (audioLevel (comp w)) (elapsedTime (comp w)) confidence;
       SimulatorSubmitResponse (trim env (transcript (hooks w)))] ++
      (if fails env (SimulatorSubmitResponse (trim env (transcript (hooks w))))
       then [ConsoleError "Error submitting voice response:"] else []).
Proof.
  intros env w session Hs Ht Hstop Hp w'. subst w'.
  apply truthy_nonempty in Ht.
  open_world w. simpl in Hs, Ht. subst.
  run_handler ltac:(rewrite ?Ht, ?Hstop, ?Hp).
  destruct (fails env (SimulatorSubmitResponse (trim env w_text)));
    eval_handler; rewrite <- !app_assoc; simpl;
    unfold ended, count_call; simpl;
    rewrite ?existsb_app, ?filter_app, ?length_app; simpl;
    rewrite ?orb_false_r, ?Nat.add_0_r;
    (repeat split; auto; try same_state;
     intros A; rewrite <- A; same_state).
Qed.

Lemma submitVoiceResponse_no_next_question_witness :
  currentQuestion (comp (exec (submitVoiceResponse no_next_question)
                              active_world))
    = "Tell me about yourself." /\
  transcript (hooks (exec (submitVoiceResponse no_next_question)
                          active_world))
    = "I have five years of experience" /\
  sessionState (exec (submitVoiceResponse no_next_question) active_world)
    = Active.
Proof.
  pose proof (submitVoiceResponse_no_next_question
                no_next_question active_world sample_session
                eq_refl ltac:(discriminate) eq_refl eq_refl) as H.
  split; [apply H|]. split; [apply H|].
  apply H. reflexivity.
Defined.

(** C1, the claim as stated, fails.  [endInterview] never touches the
    speech output adapter: an utterance in flight before the call is in
    flight after it.  And only the remote end-of-session call is guarded:
    when [stopListening()] throws, the audio track and the transport
    connection are not released and the parent is not told the interview
    ended. *)
Lemma endInterview_leaves_resources :
  ~ spec_end_releases_everything all_succeed speaking_world /\
  TTS.in_flight (tts (exec (endInterview all_succeed) speaking_world)) = 1 /\
  ~ spec_end_releases_everything stopListening_throws active_world /\
  trace (exec (endInterview stopListening_throws) active_world) =
    trace active_world ++ [StopListening].
Proof.
  split; [|split; [|split]].
  - intros (_ & _ & _ & _ & H). vm_compute in H. discriminate.
  - vm_compute. reflexivity.
  - intros (H & _). vm_compute in H. discriminate.
  - vm_compute. reflexivity.
Qed.

(** C1, amended: from every state, when none of the three unguarded release
    calls ([stopListening], [stopAudio], [disconnectLiveKit]) throws,
    [endInterview] clears the active flag, stops listening, releases the
    audio track and the transport connection, in that order, then, if a
    session handle exists, asks the remote service to end the session, a
    rejection of which is logged and prevents nothing, and finally tells the
    parent that the interview ended (state [Ended]).  The speech output
    adapter is left as it is. *)
Theorem endInterview_teardown :
  forall (env : Env) (w : World),
    fails env StopListening = false ->
    fails env StopAudio = false ->
    fails env DisconnectLiveKit = false ->
    let w' := exec (endInterview env) w in
    sessionState w' = Ended /\
    isInterviewActive (comp w') = false /\
    isListening (hooks w') = false /\
    localAudioTrack (hooks w') = false /\
    transportConnected (hooks w') = false /\
    transcript (hooks w') = transcript (hooks w) /\
    tts w' = tts w /\
    trace w' =
      trace w ++
      [StopListening; StopAudio; DisconnectLiveKit] ++
      match voiceSession (comp w) with
      | Some session =>
          SvcEndInterview (sessionId session) ::
          (if fails env (SvcEndInterview (sessionId session))
           then [ConsoleError "Error ending interview:"] else [])
      | None => []
      end ++
      [OnEndInterview].
Proof.
  intros env w H1 H2 H3 w'. subst w'.
  open_world w.
  assert (E : forall c h t calls more,
             sessionState (mkWorld c h t (calls ++ more ++ [OnEndInterview]))
             = Ended).
  { intros. unfold sessionState, ended. simpl.
    rewrite !existsb_app. simpl. now rewrite !orb_true_r. }
  destruct w_session as [session|];
    run_handler ltac:(rewrite ?H1, ?H2, ?H3).
  - destruct (fails env (SvcEndInterview (sessionId session)));
      eval_handler; destruct (fails env OnEndInterview);
      eval_handler; rewrite <- !app_assoc; simpl;
      repeat split; auto.
    + apply (E _ _ _ w_calls [StopListening; StopAudio; DisconnectLiveKit;
                              SvcEndInterview (sessionId session);
                              ConsoleError "Error ending interview:"]).
    + apply (E _ _ _ w_calls [StopListening; StopAudio; DisconnectLiveKit;
                              SvcEndInterview (sessionId session);
                              ConsoleError "Error ending interview:"]).
    + apply (E _ _ _ w_calls [StopListening; StopAudio; DisconnectLiveKit;
                              SvcEndInterview (sessionId session)]).
    + apply (E _ _ _ w_calls [StopListening; StopAudio; DisconnectLiveKit;
                              SvcEndInterview (sessionId session)]).
  - destruct (fails env OnEndInterview);
      eval_handler; rewrite <- !app_assoc; simpl;
      repeat split; auto;
      apply (E _ _ _ w_calls [StopListening; StopAudio; DisconnectLiveKit]).
Qed.

(** Ending the sample interview while the remote service is unreachable. *)
Lemma endInterview_teardown_witness :
  sessionState
    (exec (endInterview
             (mkEnv 2000%Z None None is_SvcEndInterview sample_trim))
          active_world) = Ended /\
  trace
    (exec (endInterview
             (mkEnv 2000%Z None None is_SvcEndInterview sample_trim))
          active_world) =
  trace active_world ++
  [StopListening; StopAudio; DisconnectLiveKit;
   SvcEndInterview "session-1"; ConsoleError "Error ending interview:";
   OnEndInterview].
Proof.
  pose proof (endInterview_teardown
                (mkEnv 2000%Z None None is_SvcEndInterview sample_trim)
                active_world eq_refl eq_refl eq_refl) as H.
  split; apply H.
Defined.

(** C2, the claim as stated, fails: when the session has been created and
    the transport connection is refused, [startVoiceInterview] logs the
    error and sets the connection status, and that is all; end-session is
    not invoked and the session handle stays stored. *)
Lemma startVoiceInterview_no_cleanup :
  ~ spec_start_failure_cleans_up connect_rejects idle_world /\
  trace (exec (startVoiceInterview connect_rejects) idle_world) =
    [SvcStartVoiceInterview "participant-1"; ConnectLiveKit;
     ConsoleError "Error starting voice interview:"] /\
  voiceSession (comp (exec (startVoiceInterview connect_rejects) idle_world))
    = Some sample_session.
Proof.
  split; [|split].
  - intros (_ & H). vm_compute in H. lia.
  - reflexivity.
  - reflexivity.
Qed.

(** C2, amended: if the session-start request or the transport connect
    rejects during [startVoiceInterview], the error is logged, the
    connection status becomes [error] (state [Error]), the thinking flag is
    cleared and the interview is not marked active; speech input, audio
    track and transport stay as they were.  When the session-start request
    rejects, no transport connect is attempted and no session handle is
    stored.  When the transport connect rejects, the session handle and its
    first question have been stored and stay so; end-session is not
    invoked. *)
Theorem startVoiceInterview_failure :
  forall (env : Env) (w : World),
    ended w = false ->
    start_result env = None \/ fails env ConnectLiveKit = true ->
    let w' := exec (startVoiceInterview env) w in
    completes (startVoiceInterview env) w = true /\
    sessionState w' = Error /\
    connectionStatus (comp w') = error /\
    isThinking (comp w') = false /\
    isInterviewActive (comp w') = isInterviewActive (comp w) /\
    startTime (comp w') = startTime (comp w) /\
    hooks w' = hooks w /\
    tts w' = tts w /\
    count_call is_SvcEndInterview (trace w') =
      count_call is_SvcEndInterview (trace w) /\
    match start_result env with
    | None =>
        trace w' =
          trace w ++
          [SvcStartVoiceInterview (participantName (comp w));
           ConsoleError "Error starting voice interview:"] /\
        voiceSession (comp w') = voiceSession (comp w) /\
        currentQuestion (comp w') = currentQuestion (comp w)
    | Some session =>
        trace w' =
          trace w ++
          [SvcStartVoiceInterview (participantName (comp w));
           ConnectLiveKit;
           ConsoleError "Error starting voice interview:"] /\
        voiceSession (comp w') = Some session /\
        currentQuestion (comp w') = firstQuestion_or_empty session
    end.
Proof.
  intros env w He Hf w'. subst w'.
  open_world w. unfold ended in He. simpl in He.
  assert (E : forall c h t more,
             connectionStatus c = error ->
             existsb is_OnEndInterview more = false ->
             sessionState (mkWorld c h t (w_calls ++ more)) = Error).
  { intros c h t more A B. unfold sessionState, ended. simpl.
    now rewrite existsb_app, He, B, A. }
  destruct (start_result env) as [session|] eqn:Hr.
  - destruct Hf as [Hf|Hf]; [discriminate|].
    run_handler ltac:(rewrite ?Hr, ?Hf).
    rewrite <- !app_assoc. simpl.
    unfold count_call. rewrite filter_app, length_app. simpl.
    repeat split; auto; try lia; try (now apply E).
  - run_handler ltac:(rewrite ?Hr).
    rewrite <- !app_assoc. simpl.
    unfold count_call. rewrite filter_app, length_app. simpl.
    repeat split; auto; try lia; try (now apply E).
Qed.

(** The two failures on a fresh screen. *)
Lemma startVoiceInterview_failure_witness :
  sessionState (exec (startVoiceInterview start_rejects) idle_world) = Error /\
  sessionState (exec (startVoiceInterview connect_rejects) idle_world) = Error.
Proof.
  split.
  - apply (startVoiceInterview_failure start_rejects idle_world eq_refl).
    left. reflexivity.
  - apply (startVoiceInterview_failure connect_rejects idle_world eq_refl).
    right. reflexivity.
Defined.

(** C5, the claim as stated, fails: [resumeInterview] marks the interview
    active before it calls anything, and its [catch] only logs; after a
    refused resume the interview is marked active and the connection status
    is what it was, so the state is [Active], not [Error]. *)
Lemma resumeInterview_swallows_failure :
  ~ spec_resume_failure_is_error resume_rejects paused_world /\
  sessionState paused_world = Paused /\
  sessionState (exec (resumeInterview resume_rejects) paused_world) = Active.
Proof.
  split; [|split].
  - unfold spec_resume_failure_is_error. vm_compute. discriminate.
  - reflexivity.
  - reflexivity.
Qed.

(** C5, amended: when, in [resumeInterview], the remote resume or the
    re-acquisition of local audio fails, the failure is logged and
    swallowed: the handler returns normally, the interview is marked active,
    the connection status and the hooks are as before; from [Paused] the
    state becomes [Active], not [Error]. *)
Theorem resumeInterview_failure_logged :
  forall (env : Env) (w : World) (session : VoiceSession),
    voiceSession (comp w) = Some session ->
    fails env (SvcResumeInterview (sessionId session)) = true \/
    fails env StartAudio = true ->
    let w' := exec (resumeInterview env) w in
    completes (resumeInterview env) w = true /\
    isInterviewActive (comp w') = true /\
    connectionStatus (comp w') = connectionStatus (comp w) /\
    (sessionState w = Paused -> sessionState w' = Active) /\
    hooks w' = hooks w /\
    trace w' =
      trace w ++
      SvcResumeInterview (sessionId session) ::
      (if fails env (SvcResumeInterview (sessionId session))
       then [] else [StartAudio]) ++
      [ConsoleError "Error resuming interview:"].
Proof.
  intros env w session Hs Hf w'. subst w'.
  open_world w. simpl in Hs. subst.
  assert (E : forall c h t more,
             sessionState
               (mkWorld (mkComponent w_active w_question w_started w_elapsed
                           w_thinking (Some session) w_status w_level
                           w_participant)
                        (mkHooks w_listening w_text w_track w_transport)
                        w_speech w_calls) = Paused ->
             connectionStatus c = w_status ->
             isInterviewActive c = true ->
             existsb is_OnEndInterview more = false ->
             sessionState (mkWorld c h t (w_calls ++ more)) = Active).
  { intros c h t more P A B C. revert P. unfold sessionState, ended. simpl.
    rewrite existsb_app, C, A, B, orb_false_r.
    destruct (existsb is_OnEndInterview w_calls); [discriminate|].
    destruct w_status; try discriminate; reflexivity. }
  destruct (fails env (SvcResumeInterview (sessionId session))) eqn:Hr.
  - run_handler ltac:(rewrite ?Hr).
    rewrite <- !app_assoc. simpl.
    repeat split; auto; try (intros P; now apply E).
  - destruct Hf as [Hf|Hf]; [discriminate|].
    run_handler ltac:(rewrite ?Hr, ?Hf).
    rewrite <- !app_assoc. simpl.
    repeat split; auto; try (intros P; now apply E).
Qed.

Lemma resumeInterview_failure_logged_witness :
  isInterviewActive
    (comp (exec (resumeInterview resume_rejects) paused_world)) = true /\
  connectionStatus
    (comp (exec (resumeInterview resume_rejects) paused_world)) = connected.
Proof.
  pose proof (resumeInterview_failure_logged
                resume_rejects paused_world sample_session eq_refl
                (or_introl eq_refl)) as H.
  split; apply H.
Defined.

Lemma paused_inactive w :
  sessionState w = Paused -> isInterviewActive (comp w) = false.
Proof.
  unfold sessionState.
  destruct (ended w); [discriminate|].
  destruct (connectionStatus (comp w)); try discriminate;
    destruct (isInterviewActive (comp w)); try discriminate; reflexivity.
Qed.

(** One [pauseInterview] while paused. *)
Lemma pauseInterview_while_paused env w :
  sessionState w = Paused ->
  fails env StopListening = false ->
  fails env StopAudio = false ->
  let w' := exec (pauseInterview env) w in
  sessionState w' = Paused /\ comp w' = comp w /\ tts w' = tts w /\
  hooks w' = mkHooks false (transcript (hooks w)) false
                     (transportConnected (hooks w)) /\
  trace w' =
    trace w ++
    [StopListening; StopAudio] ++
    match voiceSession (comp w) with
    | Some session =>
        SvcPauseInterview (sessionId session) ::
        (if fails env (SvcPauseInterview (sessionId session))
         then [ConsoleError "Error pausing interview:"] else [])
    | None => []
    end.
Proof.
  intros P H1 H2 w'. subst w'.
  pose proof (paused_inactive w P) as A.
  open_world w. simpl in A. subst.
  destruct w_session as [session|];
    run_handler ltac:(rewrite ?H1, ?H2).
  - destruct (fails env (SvcPauseInterview (sessionId session)));
      eval_handler; rewrite <- !app_assoc; simpl; repeat split; auto;
      rewrite <- P; same_state.
  - rewrite <- !app_assoc; simpl; repeat split; auto.
    rewrite <- P; same_state.
Qed.

Lemma count_call_app p l r :
  count_call p (l ++ r) = count_call p l + count_call p r.
Proof. unfold count_call. now rewrite filter_app, length_app. Qed.

(** C4, the claim as stated, fails: [pauseInterview] has no guard, so a
    call made while already paused stops listening, stops the audio and
    notifies the remote service once more. *)
Lemma pauseInterview_repeats_teardown :
  sessionState paused_world = Paused /\
  ~ spec_pause_idempotent [all_succeed] paused_world /\
  trace (pauses [all_succeed] paused_world) =
    trace paused_world ++
    [StopListening; StopAudio; SvcPauseInterview "session-1"].
Proof.
  split; [reflexivity|]. split; [|reflexivity].
  intros (_ & H). vm_compute in H. discriminate.
Qed.

(** C4, amended: for every sequence of [pauseInterview] calls issued while
    the session is [Paused], none of whose [stopListening] and [stopAudio]
    calls throws, the state remains [Paused] and the cells of the component
    are unchanged, but every call issues the teardown calls again:
    [stopListening], [stopAudio] and, when a session handle exists, the
    notification of the remote service each occur once per call. *)
Theorem pauseInterview_repeated :
  forall (envs : list Env) (w : World),
    sessionState w = Paused ->
    Forall (fun env => fails env StopListening = false /\
                       fails env StopAudio = false) envs ->
    let w' := pauses envs w in
    sessionState w' = Paused /\
    comp w' = comp w /\
    tts w' = tts w /\
    transcript (hooks w') = transcript (hooks w) /\
    transportConnected (hooks w') = transportConnected (hooks w) /\
    count_call is_StopListening (trace w') =
      count_call is_StopListening (trace w) + List.length envs /\
    count_call is_StopAudio (trace w') =
      count_call is_StopAudio (trace w) + List.length envs /\
    count_call is_SvcPauseInterview (trace w') =
      count_call is_SvcPauseInterview (trace w) +
      match voiceSession (comp w) with
      | Some _ => List.length envs
      | None => 0
      end.
Proof.
  induction envs as [|env envs IH]; intros w P F; simpl.
  { repeat split; auto; try lia. destruct (voiceSession (comp w)); lia. }
  inversion F as [|? ? [H1 H2] F']; subst.
  destruct (pauseInterview_while_paused env w P H1 H2)
    as (P1 & C1 & T1 & K1 & R1).
  destruct (IH _ P1 F') as (I1 & I2 & I3 & I4 & I5 & I6 & I7 & I8).
  rewrite I2, I3, I4, I5, I6, I7, I8, C1, T1, K1, R1. simpl.
  rewrite !count_call_app.
  repeat split; auto;
    (destruct (voiceSession (comp w)) as [session|];
     [destruct (fails env (SvcPauseInterview (sessionId session)))|]);
    unfold count_call; simpl; lia.
Qed.

(** Two more pauses of the paused sample interview. *)
Lemma pauseInterview_repeated_witness :
  sessionState (pauses [all_succeed; all_succeed] paused_world) = Paused /\
  count_call is_SvcPauseInterview
    (trace (pauses [all_succeed; all_succeed] paused_world)) = 3.
Proof.
  assert (F : Forall (fun env => fails env StopListening = false /\
                                 fails env StopAudio = false)
                     [all_succeed; all_succeed])
    by (repeat constructor).
  pose proof (pauseInterview_repeated [all_succeed; all_succeed] paused_world
                eq_refl F) as H.
  split; apply H.
Defined.

Ltac split_fails :=
  repeat match goal with
         | |- context [fails ?e ?c] =>
             destruct (fails e c) eqn:?; eval_handler
         end.

(** X12: when none of its calls fails, the microphone button switches
    speech input and the local audio track together: if the screen was
    listening, listening stops and the track is released, in that order;
    otherwise the track is acquired and then listening starts.  Afterwards
    both are on or both are off, whatever the track was before. *)
Theorem toggleMicrophone_switches_both :
  forall (env : Env) (w : World),
    fails env StartAudio = false ->
    fails env StartListening = false ->
    fails env StopListening = false ->
    fails env StopAudio = false ->
    let w' := exec (toggleMicrophone env) w in
    completes (toggleMicrophone env) w = true /\
    isListening (hooks w') = negb (isListening (hooks w)) /\
    localAudioTrack (hooks w') = negb (isListening (hooks w)) /\
    transcript (hooks w') = transcript (hooks w) /\
    comp w' = comp w /\
    trace w' =
      trace w ++
      (if isListening (hooks w) then [StopListening; StopAudio]
       else [StartAudio; StartListening]).
Proof.
  intros env w H1 H2 H3 H4 w'. subst w'.
  open_world w. destruct w_listening;
    run_handler ltac:(rewrite ?H1, ?H2, ?H3, ?H4);
    rewrite <- !app_assoc; simpl; repeat split.
Qed.

Lemma toggleMicrophone_switches_both_witness :
  isListening (hooks (exec (toggleMicrophone all_succeed) paused_world))
    = true /\
  localAudioTrack (hooks (exec (toggleMicrophone all_succeed) paused_world))
    = true.
Proof.
  pose proof (toggleMicrophone_switches_both all_succeed paused_world
                eq_refl eq_refl eq_refl eq_refl) as H.
  split; apply H.
Defined.

(** X13: when the audio track cannot be acquired, the microphone button
    does not start listening: [startListening] is not called, the hooks and
    the component are as before, and the failure is not caught by the
    handler. *)
Theorem toggleMicrophone_audio_refused :
  forall (env : Env) (w : World),
    isListening (hooks w) = false ->
    fails env StartAudio = true ->
    let w' := exec (toggleMicrophone env) w in
    completes (toggleMicrophone env) w = false /\
    hooks w' = hooks w /\
    comp w' = comp w /\
    trace w' = trace w ++ [StartAudio].
Proof.
  intros env w L H w'. subst w'.
  open_world w. simpl in L. subst.
  run_handler ltac:(rewrite ?H). repeat split.
Qed.

Lemma toggleMicrophone_audio_refused_witness :
  trace (exec (toggleMicrophone
                 (mkEnv 0%Z None None (fun _ => true) sample_trim))
              paused_world) =
  trace paused_world ++ [StartAudio].
Proof.
  apply (toggleMicrophone_audio_refused
           (mkEnv 0%Z None None (fun _ => true) sample_trim) paused_world
           eq_refl eq_refl).
Defined.

(** X14: when the session is created and the transport connects,
    [startVoiceInterview] stores the session handle, shows its first
    question (the empty string when there is none), marks the interview
    active, records the start time and clears the thinking flag.  It leaves
    the connection status at [connecting]: the state is [Connecting] until
    the transport's [onConnected] callback runs, which makes it [Active]. *)
Theorem startVoiceInterview_success :
  forall (env : Env) (w : World) (session : VoiceSession),
    ended w = false ->
    start_result env = Some session ->
    fails env ConnectLiveKit = false ->
    let w' := exec (startVoiceInterview env) w in
    completes (startVoiceInterview env) w = true /\
    voiceSession (comp w') = Some session /\
    currentQuestion (comp w') = firstQuestion_or_empty session /\
    (firstQuestion session = None -> currentQuestion (comp w') = "") /\
    isInterviewActive (comp w') = true /\
    startTime (comp w') = Some (now env) /\
    isThinking (comp w') = false /\
    connectionStatus (comp w') = connecting /\
    sessionState w' = Connecting /\
    sessionState (exec onConnected w') = Active /\
    transportConnected (hooks w') = true /\
    trace w' =
      trace w ++
      [SvcStartVoiceInterview (participantName (comp w)); ConnectLiveKit].
Proof.
  intros env w session He Hr Hc w'. subst w'.
  open_world w. unfold ended in He. simpl in He.
  cbv [onConnected].
  run_handler ltac:(rewrite ?Hr, ?Hc).
  rewrite <- !app_assoc. simpl.
  unfold sessionState, ended. simpl.
  rewrite existsb_app, He. simpl.
  repeat split; auto.
  intros N. unfold firstQuestion_or_empty. now rewrite N.
Qed.

Lemma startVoiceInterview_success_witness :
  sessionState (exec (startVoiceInterview all_succeed) idle_world)
    = Connecting /\
  sessionState
    (exec onConnected (exec (startVoiceInterview all_succeed) idle_world))
    = Active.
Proof.
  pose proof (startVoiceInterview_success all_succeed idle_world
                sample_session eq_refl eq_refl eq_refl) as H.
  split; apply H.
Defined.

(** X15: pausing an active, started interview (its [stopListening] and
    [stopAudio] calls returning) gives state [Paused]: listening is stopped
    and the audio track released, the transport connection, the transcript,
    the session handle and the start time are kept, and the remote service
    is notified if a session handle exists; a rejection of that
    notification is logged and changes nothing else. *)
Theorem pauseInterview_from_active :
  forall (env : Env) (w : World) (t : Z),
    sessionState w = Active ->
    startTime (comp w) = Some t ->
    fails env StopListening = false ->
    fails env StopAudio = false ->
    let w' := exec (pauseInterview env) w in
    completes (pauseInterview env) w = true /\
    sessionState w' = Paused /\
    isListening (hooks w') = false /\
    localAudioTrack (hooks w') = false /\
    transportConnected (hooks w') = transportConnected (hooks w) /\
    transcript (hooks w') = transcript (hooks w) /\
    voiceSession (comp w') = voiceSession (comp w) /\
    startTime (comp w') = Some t /\
    trace w' =
      trace w ++
      [StopListening; StopAudio] ++
      match voiceSession (comp w) with
      | Some session =>
          SvcPauseInterview (sessionId session) ::
          (if fails env (SvcPauseInterview (sessionId session))
           then [ConsoleError "Error pausing interview:"] else [])
      | None => []
      end.
Proof.
  intros env w t A T H1 H2 w'. subst w'.
  open_world w. simpl in T. subst.
  assert (P : forall c h sp more,
             isInterviewActive c = false ->
             startTime c = Some t ->
             connectionStatus c = w_status ->
             existsb is_OnEndInterview more = false ->
             sessionState (mkWorld c h sp (w_calls ++ more)) = Paused).
  { intros c h sp more I S C E. revert A. unfold sessionState, ended. simpl.
    rewrite existsb_app, E, I, S, C, orb_false_r.
    destruct (existsb is_OnEndInterview w_calls); [discriminate|].
    destruct w_status; try discriminate; reflexivity. }
  destruct w_session as [session|];
    run_handler ltac:(rewrite ?H1, ?H2).
  - destruct (fails env (SvcPauseInterview (sessionId session)));
      eval_handler; rewrite <- !app_assoc; simpl; repeat split; auto.
  - rewrite <- !app_assoc; simpl; repeat split; auto.
Qed.

Lemma pauseInterview_from_active_witness :
  sessionState (exec (pauseInterview all_succeed) active_world) = Paused /\
  transportConnected (hooks (exec (pauseInterview all_succeed) active_world))
    = true.
Proof.
  pose proof (pauseInterview_from_active all_succeed active_world 1000%Z
                eq_refl eq_refl eq_refl eq_refl) as H.
  split; apply H.
Defined.

(** X16: a resume that succeeds (the remote service accepts, then the audio
    track is acquired, in that order) makes a paused interview [Active]
    again with the audio track present; speech-input listening is not
    restarted and the start time is not reset. *)
Theorem resumeInterview_success :
  forall (env : Env) (w : World) (session : VoiceSession),
    sessionState w = Paused ->
    voiceSession (comp w) = Some session ->
    fails env (SvcResumeInterview (sessionId session)) = false ->
    fails env StartAudio = false ->
    let w' := exec (resumeInterview env) w in
    completes (resumeInterview env) w = true /\
    sessionState w' = Active /\
    localAudioTrack (hooks w') = true /\
    isListening (hooks w') = isListening (hooks w) /\
    startTime (comp w') = startTime (comp w) /\
    trace w' =
      trace w ++ [SvcResumeInterview (sessionId session); StartAudio].
Proof.
  intros env w session P Hs H1 H2 w'. subst w'.
  open_world w. simpl in Hs. subst.
  run_handler ltac:(rewrite ?H1, ?H2).
  rewrite <- !app_assoc. simpl. repeat split; auto.
  revert P. unfold sessionState, ended. simpl.
  rewrite existsb_app. simpl. rewrite orb_false_r.
  destruct (existsb is_OnEndInterview w_calls); [discriminate|].
  destruct w_status; try discriminate; reflexivity.
Qed.

Lemma resumeInterview_success_witness :
  sessionState (exec (resumeInterview all_succeed) paused_world) = Active /\
  isListening (hooks (exec (resumeInterview all_succeed) paused_world))
    = false.
Proof.
  pose proof (resumeInterview_success all_succeed paused_world sample_session
                eq_refl eq_refl eq_refl eq_refl) as H.
  split; apply H.
Defined.

(** X17: take a submission that passes the guard (a session handle exists
    and the platform's [trim] leaves something of the transcript) and in
    which [stopListening], the simulator's [submitResponse], [stopAudio] and
    [disconnectLiveKit] do not fail.  When its remote result says the
    interview is complete, the interview is ended even if the result carries
    a next question: the question and the transcript are left as they were,
    the teardown of [endInterview] runs (a second [stopListening],
    [stopAudio], [disconnectLiveKit], the remote end of the session, whose
    rejection is only logged, the notification of the parent), the state is
    [Ended] and the thinking flag is cleared. *)
Theorem submitVoiceResponse_complete :
  forall (env : Env) (w : World) (session : VoiceSession)
         (next : option string),
    voiceSession (comp w) = Some session ->
    trim env (transcript (hooks w)) <> "" ->
    process_result env = Some (mkProcessResult true next) ->
    fails env StopListening = false ->
    fails env (SimulatorSubmitResponse (trim env (transcript (hooks w))))
      = false ->
    fails env StopAudio = false ->
    fails env DisconnectLiveKit = false ->
    let w' := exec (submitVoiceResponse env) w in
    completes (submitVoiceResponse env) w = true /\
    sessionState w' = Ended /\
    currentQuestion (comp w') = currentQuestion (comp w) /\
    transcript (hooks w') = transcript (hooks w) /\
    isInterviewActive (comp w') = false /\
    isThinking (comp w') = false /\
    transportConnected (hooks w') = false /\
    trace w' =
      trace w ++
      [StopListening;
       SvcProcessVoiceResponse (sessionId session)
         (trim env (transcript (hooks w)))
         (audioLevel (comp w)) (elapsedTime (comp w)) confidence;
       SimulatorSubmitResponse (trim env (transcript (hooks w)));
       StopListening; StopAudio; DisconnectLiveKit;
       SvcEndInterview (sessionId session)] ++
      (if fails env (SvcEndInterview (sessionId session))
       then [ConsoleError "Error ending interview:"] else []) ++
      [OnEndInterview].
Proof.
  intros env w session next Hs Ht Hp H1 Hsim H2 H3 w'. subst w'.
  apply truthy_nonempty in Ht.
  open_world w. simpl in Hs, Ht, Hsim. subst.
  assert (E : forall c h t more,
             sessionState
               (mkWorld c h t (w_calls ++ more ++ [OnEndInterview])) = Ended).
  { intros. unfold sessionState, ended. simpl.
    rewrite !existsb_app. simpl. now rewrite !orb_true_r. }
  run_handler ltac:(rewrite ?Ht, ?H1, ?Hp, ?Hsim, ?H2, ?H3).
  destruct (fails env (SvcEndInterview (sessionId session)));
    eval_handler; destruct (fails env OnEndInterview);
    eval_handler; rewrite <- !app_assoc; simpl; repeat split; auto.
  - apply (E _ _ _ [StopListening;
                    SvcProcessVoiceResponse (sessionId session)
                      (trim env w_text) w_level w_elapsed confidence;
                    SimulatorSubmitResponse (trim env w_text);
                    StopListening; StopAudio; DisconnectLiveKit;
                    SvcEndInterview (sessionId session);
                    ConsoleError "Error ending interview:"]).
  - apply (E _ _ _ [StopListening;
                    SvcProcessVoiceResponse (sessionId session)
                      (trim env w_text) w_level w_elapsed confidence;
                    SimulatorSubmitResponse (trim env w_text);
                    StopListening; StopAudio; DisconnectLiveKit;
                    SvcEndInterview (sessionId session);
                    ConsoleError "Error ending interview:"]).
  - apply (E _ _ _ [StopListening;
                    SvcProcessVoiceResponse (sessionId session)
                      (trim env w_text) w_level w_elapsed confidence;
                    SimulatorSubmitResponse (trim env w_text);
                    StopListening; StopAudio; DisconnectLiveKit;
                    SvcEndInterview (sessionId session)]).
  - apply (E _ _ _ [StopListening;
                    SvcProcessVoiceResponse (sessionId session)
                      (trim env w_text) w_level w_elapsed confidence;
                    SimulatorSubmitResponse (trim env w_text);
                    StopListening; StopAudio; DisconnectLiveKit;
                    SvcEndInterview (sessionId session)]).
Qed.

Lemma submitVoiceResponse_complete_witness :
  sessionState
    (exec (submitVoiceResponse
             (mkEnv 2000%Z None
                    (Some (mkProcessResult true (Some "One more?")))
                    (fun _ => false) sample_trim))
          active_world) = Ended /\
  currentQuestion
    (comp (exec (submitVoiceResponse
                   (mkEnv 2000%Z None
                          (Some (mkProcessResult true (Some "One more?")))
                          (fun _ => false) sample_trim))
                active_world)) = "Tell me about yourself.".
Proof.
  pose proof (submitVoiceResponse_complete
                (mkEnv 2000%Z None
                       (Some (mkProcessResult true (Some "One more?")))
                       (fun _ => false) sample_trim)
                active_world sample_session (Some "One more?")
                eq_refl ltac:(discriminate) eq_refl eq_refl eq_refl eq_refl
                eq_refl) as H.
  split; apply H.
Defined.

(** X18: the thinking flag does not stay set once the awaited calls have
    settled.  Whichever of its calls resolve and whichever reject,
    [startVoiceInterview] returns normally with the flag cleared.  Provided
    its first call, [stopListening], does not throw, [submitVoiceResponse]
    returns normally too, and with the flag cleared when it went past its
    guard (a session handle exists and the platform's [trim] leaves
    something of the transcript), whichever of its later calls reject.  A
    call that never settles is not covered. *)
Theorem thinking_flag_is_cleared :
  forall (env : Env) (w : World),
    (completes (startVoiceInterview env) w = true /\
     isThinking (comp (exec (startVoiceInterview env) w)) = false) /\
    (fails env StopListening = false ->
     completes (submitVoiceResponse env) w = true /\
     (trim env (transcript (hooks w)) <> "" ->
      voiceSession (comp w) <> None ->
      isThinking (comp (exec (submitVoiceResponse env) w)) = false)).
Proof.
  intros env w. open_world w. split.
  - destruct (start_result env) as [session|] eqn:Hr;
      run_handler ltac:(rewrite ?Hr); split_fails; split; reflexivity.
  - intros H1.
    destruct (JS.truthy (trim env w_text)) eqn:Ht.
    2:{ split.
        - cbv [completes submitVoiceResponse bind get hooks comp transcript
               voiceSession fst]. rewrite Ht. reflexivity.
        - intros N. simpl in N. apply truthy_nonempty in N. congruence. }
    destruct w_session as [session|].
    2:{ split.
        - cbv [completes submitVoiceResponse bind get hooks comp transcript
               voiceSession fst]. rewrite Ht. reflexivity.
        - intros _ N. now destruct N. }
    destruct (process_result env) as [[[|] [q|]]|] eqn:Hp;
      run_handler ltac:(rewrite ?Ht, ?H1, ?Hp); split_fails;
      try rewrite H1; eval_handler; split_fails; split; reflexivity.
Qed.

Lemma thinking_flag_is_cleared_witness :
  isThinking (comp (exec (submitVoiceResponse process_rejects) active_world))
    = false.
Proof.
  apply (thinking_flag_is_cleared process_rejects active_world);
    [reflexivity | discriminate | discriminate].
Defined.

(** X19: apart from [startVoiceInterview], no handler touches the session
    handle or the start time, and none touches the speech output adapter:
    whatever the outside does, pausing, resuming, ending, submitting and
    the microphone button leave all three as they were.  In particular
    [endInterview] does not discard the session handle. *)
Theorem handlers_keep_session :
  forall (env : Env) (w : World),
    keeps_session w (exec (pauseInterview env) w) /\
    keeps_session w (exec (resumeInterview env) w) /\
    keeps_session w (exec (endInterview env) w) /\
    keeps_session w (exec (submitVoiceResponse env) w) /\
    keeps_session w (exec (toggleMicrophone env) w) /\
    tts (exec (startVoiceInterview env) w) = tts w.
Proof.
  intros env w. unfold keeps_session. open_world w.
  repeat split;
    try (destruct w_session as [session|]); try (destruct w_listening);
    try (destruct (JS.truthy (trim env w_text)) eqn:Ht);
    try (destruct (start_result env) as [s0|] eqn:Hr);
    try (destruct (process_result env) as [[[|] [q|]]|] eqn:Hp);
    run_handler ltac:(rewrite ?Ht, ?Hp, ?Hr); split_fails;
    repeat (split_fails; eval_handler); reflexivity.
Qed.

Lemma active_has_session_perform a w :
  active_has_session w -> active_has_session (perform a w).
Proof.
  unfold active_has_session. open_world w. simpl. intros I.
  destruct a as [env|env|env|env|env| | | |a b c];
    cbv [perform onConnected onDisconnected onError followTransport].
  - destruct (start_result env) as [s0|] eqn:Hr;
      run_handler ltac:(rewrite ?Hr); split_fails;
      first [exact I
            | intros _; split; discriminate
            | intros A; split; [discriminate | now apply I]].
  - destruct w_session as [session|]; run_handler idtac; split_fails;
      intros; discriminate.
  - destruct w_session as [session|]; run_handler idtac; split_fails;
      intros; discriminate.
  - destruct w_session as [session|];
      destruct (JS.truthy (trim env w_text)) eqn:Ht;
      try (destruct (process_result env) as [[[|] [q|]]|] eqn:Hp);
      run_handler ltac:(rewrite ?Ht, ?Hp); split_fails;
      repeat (split_fails; eval_handler);
      first [exact I | intros; discriminate].
  - destruct w_listening; run_handler idtac; split_fails; exact I.
  - eval_handler. exact I.
  - eval_handler. exact I.
  - eval_handler. exact I.
  - destruct a, b, c; eval_handler; exact I.
Qed.

(** X20: on the screen an interview marked active always has a session
    handle and a start time.  Starting from a screen whose interview is not
    marked active, whatever buttons are pressed, whatever the transport
    reports and whatever the outside answers, if the interview is marked
    active then a session handle is stored and the start time is set, so
    the guard of [submitVoiceResponse] never fails for want of a handle. *)
Theorem active_interview_has_session :
  forall (actions : list Action) (w : World),
    isInterviewActive (comp w) = false ->
    isInterviewActive (comp (performs actions w)) = true ->
    voiceSession (comp (performs actions w)) <> None /\
    startTime (comp (performs actions w)) <> None.
Proof.
  intros actions w H.
  assert (I : active_has_session w)
    by (unfold active_has_session; rewrite H; discriminate).
  clear H. revert w I.
  induction actions as [|a actions IH]; intros w I; simpl.
  - exact I.
  - apply IH. now apply active_has_session_perform.
Qed.

Lemma active_interview_has_session_witness :
  voiceSession
    (comp (performs [PressStart all_succeed; TransportConnected;
                     PressPause all_succeed; PressStart connect_rejects;
                     PressStart all_succeed]
                    idle_world)) <> None.
Proof.
  apply (active_interview_has_session
           [PressStart all_succeed; TransportConnected;
            PressPause all_succeed; PressStart connect_rejects;
            PressStart all_succeed]
           idle_world eq_refl eq_refl).
Defined.

Lemma error_state w :
  sessionState w = Error ->
  ended w = false /\ connectionStatus (comp w) = error.
Proof.
  unfold sessionState. destruct (ended w); [discriminate|].
  destruct (connectionStatus (comp w)); try discriminate; auto;
    destruct (isInterviewActive (comp w)); try discriminate;
    destruct (startTime (comp w)); discriminate.
Qed.

Ltac error_or_ended He :=
  unfold sessionState, ended; cbv [comp trace connectionStatus];
  rewrite ?existsb_app, ?He; simpl; rewrite ?orb_true_r; auto.

(** X22: an error status is not cleared by the session handlers.  From
    state [Error], whatever the outside does, pausing, resuming and the
    microphone button leave the state [Error] (resuming marks the interview
    active all the same), and a submission leaves it [Error] unless it ends
    the interview. *)
Theorem error_state_persists :
  forall (env : Env) (w : World),
    sessionState w = Error ->
    sessionState (exec (pauseInterview env) w) = Error /\
    sessionState (exec (resumeInterview env) w) = Error /\
    sessionState (exec (toggleMicrophone env) w) = Error /\
    (sessionState (exec (submitVoiceResponse env) w) = Error \/
     sessionState (exec (submitVoiceResponse env) w) = Ended).
Proof.
  intros env w E. destruct (error_state w E) as [He Hs].
  open_world w. unfold ended in He. simpl in He, Hs. subst.
  repeat split.
  - destruct w_session as [session|]; run_handler idtac; split_fails;
      error_or_ended He.
  - destruct w_session as [session|]; run_handler idtac; split_fails;
      error_or_ended He.
  - destruct w_listening; run_handler idtac; split_fails;
      error_or_ended He.
  - destruct w_session as [session|];
      destruct (JS.truthy (trim env w_text)) eqn:Ht;
      try (destruct (process_result env) as [[[|] [q|]]|] eqn:Hp);
      run_handler ltac:(rewrite ?Ht, ?Hp); split_fails;
      repeat (split_fails; eval_handler);
      error_or_ended He.
Qed.

Lemma error_state_persists_witness :
  sessionState
    (exec (resumeInterview all_succeed)
          (exec onError paused_world)) = Error.
Proof.
  apply (error_state_persists all_succeed (exec onError paused_world)
           eq_refl).
Defined.

(** One [endInterview] whose unguarded calls return. *)
Lemma endInterview_calls env w :
  fails env StopListening = false ->
  fails env StopAudio = false ->
  fails env DisconnectLiveKit = false ->
  voiceSession (comp (exec (endInterview env) w)) = voiceSession (comp w) /\
  trace (exec (endInterview env) w) =
    trace w ++
    [StopListening; StopAudio; DisconnectLiveKit] ++
    match voiceSession (comp w) with
    | Some session =>
        SvcEndInterview (sessionId session) ::
        (if fails env (SvcEndInterview (sessionId session))
         then [ConsoleError "Error ending interview:"] else [])
    | None => []
    end ++
    [OnEndInterview].
Proof.
  intros H1 H2 H3. open_world w.
  destruct w_session as [session|];
    run_handler ltac:(rewrite ?H1, ?H2, ?H3); split_fails;
    rewrite <- !app_assoc; simpl; split; reflexivity.
Qed.

(** X23: [endInterview] is not guarded against a second call.  Pressing
    the end button twice (the unguarded calls returning) runs the teardown
    twice: the parent is notified twice, the transport is asked to
    disconnect twice and, when a session handle exists, the remote service
    is asked twice to end the session; the state is [Ended] after each. *)
Theorem endInterview_twice :
  forall (env1 env2 : Env) (w : World),
    fails env1 StopListening = false ->
    fails env1 StopAudio = false ->
    fails env1 DisconnectLiveKit = false ->
    fails env2 StopListening = false ->
    fails env2 StopAudio = false ->
    fails env2 DisconnectLiveKit = false ->
    let w1 := exec (endInterview env1) w in
    let w2 := exec (endInterview env2) w1 in
    sessionState w1 = Ended /\
    sessionState w2 = Ended /\
    count_call is_OnEndInterview (trace w2) =
      count_call is_OnEndInterview (trace w) + 2 /\
    count_call is_DisconnectLiveKit (trace w2) =
      count_call is_DisconnectLiveKit (trace w) + 2 /\
    count_call is_SvcEndInterview (trace w2) =
      count_call is_SvcEndInterview (trace w) +
      match voiceSession (comp w) with Some _ => 2 | None => 0 end.
Proof.
  intros env1 env2 w A1 A2 A3 B1 B2 B3 w1 w2.
  destruct (endInterview_calls env1 w A1 A2 A3) as [V1 T1].
  destruct (endInterview_calls env2 w1 B1 B2 B3) as [V2 T2].
  fold w1 in V1, T1. fold w2 in V2, T2.
  assert (E : forall x l m, trace x = l ++ m ++ [OnEndInterview] ->
                            sessionState x = Ended).
  { intros x l m H. unfold sessionState, ended. rewrite H.
    rewrite !existsb_app. simpl. now rewrite !orb_true_r. }
  split; [rewrite app_assoc in T1; rewrite app_assoc in T1;
          rewrite <- app_assoc in T1; now apply (E w1 _ _ T1)|].
  split; [rewrite app_assoc in T2; rewrite app_assoc in T2;
          rewrite <- app_assoc in T2; now apply (E w2 _ _ T2)|].
  rewrite T2, T1, V1.
  rewrite !count_call_app.
  destruct (voiceSession (comp w)) as [session|];
    [destruct (fails env1 (SvcEndInterview (sessionId session))),
              (fails env2 (SvcEndInterview (sessionId session)))|];
    unfold count_call; simpl; repeat split; lia.
Qed.

Lemma endInterview_twice_witness :
  count_call is_OnEndInterview
    (trace (exec (endInterview all_succeed)
                 (exec (endInterview all_succeed) active_world))) = 2.
Proof.
  apply (endInterview_twice all_succeed all_succeed active_world
           eq_refl eq_refl eq_refl eq_refl eq_refl eq_refl).
Defined.

End Session.

(** ** The clock of the screen *)
Section Clock.

Import JS Coordinator.

Local Open Scope Z_scope.

Lemma seconds_field (n : nat) :
  (n < 60)%nat ->
  padStart2 (number_toString (Z.of_nat n)) =
    (if Z.of_nat n <? 10
     then ("0" ++ number_toString (Z.of_nat n))%string
     else number_toString (Z.of_nat n)) /\
  String.length (padStart2 (number_toString (Z.of_nat n))) = 2%nat.
Proof.
  intros H.
  assert (A : forallb
                (fun n =>
                   String.eqb
                     (padStart2 (number_toString (Z.of_nat n)))
                     (if Z.of_nat n <? 10
                      then ("0" ++ number_toString (Z.of_nat n))%string
                      else number_toString (Z.of_nat n)) &&
                   Nat.eqb
                     (String.length
                        (padStart2 (number_toString (Z.of_nat n)))) 2)
                (seq 0 60) = true) by (vm_compute; reflexivity).
  rewrite forallb_forall in A.
  specialize (A n). rewrite in_seq in A.
  assert (I : (0 <= n < 0 + 60)%nat) by lia.
  destruct (andb_prop _ _ (A I)) as [B C].
  apply String.eqb_eq in B. apply Nat.eqb_eq in C. auto.
Qed.

(** X11: for a whole number of milliseconds from 0 to below [2^53]
    [formatTime] prints the whole minutes, a colon and the remaining whole
    seconds on exactly two digits, a leading zero added below ten; the
    seconds are between 0 and 59 and minutes and seconds together are the
    whole seconds elapsed. *)
Theorem formatTime_minutes_and_seconds :
  forall ms : Z,
    0 <= ms < 2 ^ 53 ->
    let minutes := ms / 60000 in
    let seconds := (ms / 1000) mod 60 in
    formatTime ms =
      (number_toString minutes ++ ":" ++
       (if (seconds <? 10)%Z then "0" ++ number_toString seconds
        else number_toString seconds))%string /\
    String.length (padStart2 (number_toString seconds)) = 2%nat /\
    0 <= seconds < 60 /\
    minutes * 60 + seconds = ms / 1000.
Proof.
  intros ms H minutes seconds.
  assert (M : minutes * 60 + seconds = ms / 1000)
    by (subst minutes seconds; Z.to_euclidean_division_equations; lia).
  assert (R : Z.rem ms 60000 / 1000 = seconds).
  { rewrite Z.rem_mod_nonneg by lia. subst seconds. clear M minutes.
    Z.to_euclidean_division_equations. lia. }
  assert (B : 0 <= seconds < 60) by (subst seconds; apply Z.mod_pos_bound; lia).
  assert (N : (Z.to_nat seconds < 60)%nat) by lia.
  destruct (seconds_field (Z.to_nat seconds) N) as [P L].
  rewrite Z2Nat.id in P, L by lia.
  split; [unfold formatTime; cbv zeta; now rewrite R, P|].
  split; [exact L|]. split; [exact B | exact M].
Qed.

Lemma formatTime_minutes_and_seconds_witness :
  formatTime 125000 = "2:05"%string.
Proof.
  apply (formatTime_minutes_and_seconds 125000). lia.
Defined.

End Clock.
